(** * Currency converter: rate derivation, caching and conversion core

    A shallow embedding of [app.py]: the decimal arithmetic the module
    configures (28 significant digits), the ordered dictionaries it keeps
    its prices and rates in, the cross-rate builder, the cache getter with
    its process-wide state, and the [/convert] and [/rates] handlers.

    Modelling conventions.
    - A [Decimal] is a finite number [(-1)^sign * coefficient * 10^exponent],
      as the [decimal] module stores it.  Arithmetic rounds to the context
      precision [prec = 28] with ROUND_HALF_EVEN; the context's exponent
      limits (Emax, Emin) are not modelled, exponents are unbounded.
    - A Python [dict] is an association list in insertion order.
    - Exceptions are values of [exn]; a computation returns [Ok v] or
      [Raise e].  Code that touches the module globals, the clock or the
      network runs in the state-and-exception monad [M] over [World].
    - One request runs at a time; the interleaving of coroutines at the
      [await] points is outside the model.
    - [convert] answers with [float(converted)]; the model returns the
      decimal [converted] that conversion is applied to; the model of
      [/rates] likewise keeps the decimals. *)

From Stdlib Require Import ZArith QArith Qround Qabs Qpower String Ascii List Bool Lia Lqa.
Import ListNotations.

Open Scope Z_scope.

(* ------------------------------------------------------------------------- *)
(** ** Exceptions and results *)

(** Conditions of the [decimal] module that the default context traps.
    [DivisionUndefined] and [ConversionSyntax] surface as exceptions of
    class [decimal.InvalidOperation]; their text names the condition. *)
Inductive decimal_condition :=
| DivisionByZero
| DivisionUndefined
| InvalidOperation
| ConversionSyntax.

Inductive exn :=
| HTTPException (status_code : Z) (detail : string)
| DecimalException (c : decimal_condition)
| KeyError (key : string)
| OtherException (message : string).

Inductive result (A : Type) :=
| Ok (a : A)
| Raise (e : exn).

Arguments Ok {A} a.
Arguments Raise {A} e.

Definition rbind {A B} (r : result A) (k : A -> result B) : result B :=
  match r with
  | Ok a => k a
  | Raise e => Raise e
  end.

(* ------------------------------------------------------------------------- *)
(** ** Decimal arithmetic at 28 significant digits *)

Module Dec.

Record Decimal := mkDecimal { d_sign : bool; d_int : Z; d_exp : Z }.

(** [getcontext().prec = 28] *)
Definition prec : Z := 28.

Fixpoint ndigits_fuel (fuel : nat) (n : Z) : Z :=
  match fuel with
  | O => 1
  | S f => if n <? 10 then 1 else 1 + ndigits_fuel f (n / 10)
  end.

(** [len(str(n))] for a coefficient [n >= 0]. *)
Definition ndigits (n : Z) : Z := ndigits_fuel (Z.to_nat (Z.log2 n)) n.

(** [Decimal.adjusted()]: the exponent of the most significant digit. *)
Definition adjusted (d : Decimal) : Z := ndigits (d_int d) + d_exp d - 1.

Definition is_zero (d : Decimal) : bool := d_int d =? 0.

(** Strictly positive finite decimal. *)
Definition positive (d : Decimal) : Prop := d_sign d = false /\ 0 < d_int d.

Definition positiveb (d : Decimal) : bool := negb (d_sign d) && (0 <? d_int d).

(** Drop the last [k > 0] digits of [c], ROUND_HALF_EVEN. *)
Definition round_half_even (c k : Z) : Z :=
  let p := 10 ^ k in
  let q := c / p in
  let r := c mod p in
  if (p <? 2 * r) || ((2 * r =? p) && Z.odd q) then q + 1 else q.

(** Drop the last [k > 0] digits of [c], ROUND_HALF_UP. *)
Definition round_half_up (c k : Z) : Z :=
  let p := 10 ^ k in
  let q := c / p in
  let r := c mod p in
  if p <=? 2 * r then q + 1 else q.

(** [Decimal._fix]: round to the context precision. *)
Definition _fix (d : Decimal) : Decimal :=
  let c := d_int d in
  if c =? 0 then d
  else
    let n := ndigits c in
    if n <=? prec then d
    else
      let k := n - prec in
      let c' := round_half_even c k in
      if prec <? ndigits c'
      then mkDecimal (d_sign d) (c' / 10) (d_exp d + k + 1)
      else mkDecimal (d_sign d) c' (d_exp d + k).

(** The loop of [__truediv__] that brings an exact quotient as close to the
    ideal exponent as its trailing zeros allow; [fuel] is the distance to it. *)
Fixpoint strip_zeros (fuel : nat) (coeff exp : Z) : Z * Z :=
  match fuel with
  | O => (coeff, exp)
  | S f =>
      if coeff mod 10 =? 0 then strip_zeros f (coeff / 10) (exp + 1)
      else (coeff, exp)
  end.

(** [Decimal.__truediv__] *)
Definition div (a b : Decimal) : result Decimal :=
  let sign := xorb (d_sign a) (d_sign b) in
  if is_zero b then
    if is_zero a then Raise (DecimalException DivisionUndefined)
    else Raise (DecimalException DivisionByZero)
  else if is_zero a then
    Ok (_fix (mkDecimal sign 0 (d_exp a - d_exp b)))
  else
    let shift := ndigits (d_int b) - ndigits (d_int a) + prec + 1 in
    let exp := d_exp a - d_exp b - shift in
    let '(coeff, remainder) :=
      if 0 <=? shift
      then Z.div_eucl (d_int a * 10 ^ shift) (d_int b)
      else Z.div_eucl (d_int a) (d_int b * 10 ^ (- shift)) in
    let '(coeff, exp) :=
      if remainder =? 0
      then strip_zeros (Z.to_nat (d_exp a - d_exp b - exp)) coeff exp
      else (if coeff mod 5 =? 0 then coeff + 1 else coeff, exp) in
    Ok (_fix (mkDecimal sign coeff exp)).

(** [Decimal.__mul__] *)
Definition mul (a b : Decimal) : Decimal :=
  _fix (mkDecimal (xorb (d_sign a) (d_sign b)) (d_int a * d_int b) (d_exp a + d_exp b)).

(** [Decimal._rescale(exp, ROUND_HALF_UP)] *)
Definition _rescale (d : Decimal) (exp : Z) : Decimal :=
  if is_zero d then mkDecimal (d_sign d) 0 exp
  else if exp <=? d_exp d
  then mkDecimal (d_sign d) (d_int d * 10 ^ (d_exp d - exp)) exp
  else mkDecimal (d_sign d) (round_half_up (d_int d) (exp - d_exp d)) exp.

(** [Decimal.quantize(e, rounding=ROUND_HALF_UP)] *)
Definition quantize (d e : Decimal) : result Decimal :=
  if is_zero d then Ok (_fix (mkDecimal (d_sign d) 0 (d_exp e)))
  else if prec <? adjusted d - d_exp e + 1
  then Raise (DecimalException InvalidOperation)
  else
    let ans := _rescale d (d_exp e) in
    if prec <? ndigits (d_int ans)
    then Raise (DecimalException InvalidOperation)
    else Ok (_fix ans).

(** [Decimal(1)] *)
Definition one : Decimal := mkDecimal false 1 0.

(** [Decimal(n)] for a non-negative integer [n], [Decimal("0.01")]. *)
Definition of_Z (n : Z) : Decimal := mkDecimal false n 0.
Definition cent : Decimal := mkDecimal false 1 (-2).

(** The rational a decimal denotes, and its magnitude. *)
Definition mag (d : Decimal) : Q := (inject_Z (d_int d) * (10 # 1) ^ d_exp d)%Q.
Definition toQ (d : Decimal) : Q := if d_sign d then (- mag d)%Q else mag d.

End Dec.

Export Dec.

(* ------------------------------------------------------------------------- *)
(** ** Python dictionaries and strings *)

Open Scope string_scope.

Module Dict.
Section WithValue.
Variable V : Type.

(** Entries in insertion order; a key occurs once. *)
Definition dict := list (string * V).

Fixpoint get (k : string) (d : dict) : option V :=
  match d with
  | [] => None
  | (k', v) :: d' => if String.eqb k k' then Some v else get k d'
  end.

(** [k in d] *)
Definition mem (k : string) (d : dict) : bool :=
  match get k d with Some _ => true | None => false end.

(** [d[k]] *)
Definition getitem (k : string) (d : dict) : result V :=
  match get k d with Some v => Ok v | None => Raise (KeyError k) end.

(** [d[k] = v]: a present key keeps its place, a new key goes last. *)
Fixpoint set (k : string) (v : V) (d : dict) : dict :=
  match d with
  | [] => [(k, v)]
  | (k', v') :: d' =>
      if String.eqb k k' then (k, v) :: d' else (k', v') :: set k v d'
  end.

(** [{**a, **b}] *)
Definition merge (a b : dict) : dict :=
  fold_left (fun acc kv => set (fst kv) (snd kv) acc) b a.

Definition keys (d : dict) : list string := map fst d.

(** [bool(d)] *)
Definition truthy (d : dict) : bool :=
  match d with [] => false | _ => true end.

End WithValue.

Arguments get {V} k d.
Arguments mem {V} k d.
Arguments getitem {V} k d.
Arguments set {V} k v d.
Arguments merge {V} a b.
Arguments keys {V} d.
Arguments truthy {V} d.
End Dict.

(** [s.startswith(p)] and [s[n:]] *)
Definition startswith (s p : string) : bool := String.prefix p s.
Definition slice_from (n : nat) (s : string) : string :=
  String.substring n (String.length s - n) s.

(** [Dict[str, Decimal]] *)
Definition rates := Dict.dict Decimal.

(* ------------------------------------------------------------------------- *)
(** ** Monads: exceptions, and state with exceptions *)

Class Monad (m : Type -> Type) := {
  ret : forall {A}, A -> m A;
  bind : forall {A B}, m A -> (A -> m B) -> m B
}.

Notation "x <- c ;; k" := (bind c (fun x => k))
  (at level 61, c at next level, right associativity).
Notation "c ;;; k" := (bind c (fun _ => k))
  (at level 61, right associativity).

#[export] Instance result_Monad : Monad result := {
  ret := @Ok;
  bind := @rbind
}.

(* ------------------------------------------------------------------------- *)
(** ** Build USD/EUR/GBP cross rates *)

(** One iteration of the loop over [prices.items()]. *)
Definition cross_step (btc_usd : Decimal) (cross_rates : rates)
    (item : string * Decimal) : result rates :=
  let '(symbol, price) := item in
  if String.eqb symbol "BTCUSDT" || negb (startswith symbol "BTC")
  then Ok cross_rates
  else
    let fiat := slice_from 3 symbol in
    let btc_fiat := price in
    fiat_usd <- Dec.div btc_usd btc_fiat ;;
    let cross_rates := Dict.set (fiat ++ "USD") fiat_usd cross_rates in
    usd_fiat <- Dec.div btc_fiat btc_usd ;;
    Ok (Dict.set ("USD" ++ fiat) usd_fiat cross_rates).

Fixpoint cross_loop (btc_usd : Decimal) (items : list (string * Decimal))
    (cross_rates : rates) : result rates :=
  match items with
  | [] => Ok cross_rates
  | item :: rest =>
      cross_rates' <- cross_step btc_usd cross_rates item ;;
      cross_loop btc_usd rest cross_rates'
  end.

Definition _build_cross_rates (prices : rates) : result rates :=
  if negb (Dict.mem "BTCUSDT" prices)
  then Raise (HTTPException 502 "BTCUSDT price missing")
  else
    btc_usd <- Dict.getitem "BTCUSDT" prices ;;
    cross_rates <- cross_loop btc_usd prices [] ;;
    eurusd <- Dict.getitem "EURUSD" cross_rates ;;
    usdgbp <- Dict.getitem "USDGBP" cross_rates ;;
    let cross_rates := Dict.set "EURGBP" (Dec.mul eurusd usdgbp) cross_rates in
    eurgbp <- Dict.getitem "EURGBP" cross_rates ;;
    gbpeur <- Dec.div Dec.one eurgbp ;;
    Ok (Dict.set "GBPEUR" gbpeur cross_rates).

(** Round to 2 decimal places. *)
Definition round_number (x : Decimal) : result Decimal :=
  Dec.quantize x Dec.cent.

(* ------------------------------------------------------------------------- *)
(** ** The process state, the clock and the upstream price source *)

(** [r.json().get("price")]: absent (or null), a text [Decimal()] accepts,
    or a text it rejects. *)
Inductive json_price :=
| PriceAbsent
| PriceDecimal (d : Decimal)
| PriceInvalid.

(** [r.json()]: the decoded payload, or a body that does not decode. *)
Inductive json_body :=
| Undecodable (message : string)
| Payload (price : json_price).

(** What [client.get] does: raise (timeout, connection error) or answer. *)
Inductive http_outcome :=
| TransportError (message : string)
| Response (status_code : Z) (body : json_body).

(** Times are microseconds, the resolution of [datetime]. *)
Record World := mkWorld {
  _cache : rates;
  _cache_expiry : option Z;
  clock : Z;
  (** the outcome of the [n]-th request ever sent, and the time it takes *)
  upstream : nat -> string -> http_outcome * Z;
  (** the symbols requested so far, oldest first *)
  requests : list string
}.

Definition M (A : Type) : Type := World -> result A * World.

Definition mret {A} (a : A) : M A := fun w => (Ok a, w).

Definition mbind {A B} (m : M A) (k : A -> M B) : M B :=
  fun w =>
    match m w with
    | (Ok a, w') => k a w'
    | (Raise e, w') => (Raise e, w')
    end.

#[export] Instance M_Monad : Monad M := {
  ret := @mret;
  bind := @mbind
}.

Definition raise {A} (e : exn) : M A := fun w => (Raise e, w).

Definition lift {A} (r : result A) : M A := fun w => (r, w).

(** [try: body except Exception as e: handler(e)] *)
Definition try_except {A} (body : M A) (handler : exn -> M A) : M A :=
  fun w =>
    match body w with
    | (Ok a, w') => (Ok a, w')
    | (Raise e, w') => handler e w'
    end.

(** [datetime.utcnow()] *)
Definition utcnow : M Z := fun w => (Ok (clock w), w).

Definition read_cache : M rates := fun w => (Ok (_cache w), w).

Definition write_cache (c : rates) : M unit :=
  fun w => (Ok tt, mkWorld c (_cache_expiry w) (clock w) (upstream w) (requests w)).

Definition write_cache_expiry (t : option Z) : M unit :=
  fun w => (Ok tt, mkWorld (_cache w) t (clock w) (upstream w) (requests w)).

(** [await client.get(BINANCE, params={"symbol": sym})] *)
Definition client_get (sym : string) : M (Z * json_body) :=
  fun w =>
    let '(outcome, elapsed) := upstream w (List.length (requests w)) sym in
    let w' := mkWorld (_cache w) (_cache_expiry w) (clock w + elapsed)
                      (upstream w) (requests w ++ [sym]) in
    match outcome with
    | TransportError message => (Raise (OtherException message), w')
    | Response status_code body => (Ok (status_code, body), w')
    end.

(* ------------------------------------------------------------------------- *)
(** ** Fetch prices from Binance *)

Definition symbols : list string := ["BTCUSDT"; "BTCEUR"; "BTCGBP"].

(** One iteration of the loop over [symbols]. *)
Definition fetch_step (rates_ : rates) (sym : string) : M rates :=
  r <- client_get sym ;;
  let '(status_code, body) := r in
  if negb (status_code =? 200)%Z
  then raise (HTTPException 502 ("Binance error for " ++ sym))
  else
    match body with
    | Undecodable message => raise (OtherException message)
    | Payload PriceAbsent =>
        raise (HTTPException 502 ("Malformed Binance response for " ++ sym))
    | Payload PriceInvalid => raise (DecimalException ConversionSyntax)
    | Payload (PriceDecimal price) => ret (Dict.set sym price rates_)
    end.

Fixpoint fetch_loop (syms : list string) (rates_ : rates) : M rates :=
  match syms with
  | [] => ret rates_
  | sym :: rest =>
      rates' <- fetch_step rates_ sym ;;
      fetch_loop rest rates'
  end.

Definition _fetch_rates : M rates := fetch_loop symbols [].

(* ------------------------------------------------------------------------- *)
(** ** The cache getter and the conversion endpoint *)

Inductive Currency := USD | EUR | GBP.

Definition code (c : Currency) : string :=
  match c with USD => "USD" | EUR => "EUR" | GBP => "GBP" end.

Definition Currency_eqb (a b : Currency) : bool :=
  match a, b with
  | USD, USD | EUR, EUR | GBP, GBP => true
  | _, _ => false
  end.

(** The body of the response: [{"quantity": ..., "ccy": ...}]. *)
Record Conversion := mkConversion { quantity : Decimal; ccy : Currency }.

(** [str(e)] of the exceptions the generic handler of [convert] can see. *)
Definition exn_str (e : exn) : string :=
  match e with
  | HTTPException _ detail => detail
  | DecimalException DivisionByZero => "[<class 'decimal.DivisionByZero'>]"
  | DecimalException DivisionUndefined => "[<class 'decimal.DivisionUndefined'>]"
  | DecimalException InvalidOperation => "[<class 'decimal.InvalidOperation'>]"
  | DecimalException ConversionSyntax => "[<class 'decimal.ConversionSyntax'>]"
  | KeyError key => "'" ++ key ++ "'"
  | OtherException message => message
  end.

(** The two handlers of [convert]: an [HTTPException] is raised again as it
    is, anything else becomes a 500. *)
Definition convert_handlers {A} (e : exn) : M A :=
  match e with
  | HTTPException _ _ => raise e
  | _ => raise (HTTPException 500 ("Unexpected error: " ++ exn_str e))
  end.

(** The [if]/[elif]/[else] chain of [convert] that picks the rate. *)
Definition convert_rate (cache : rates) (ccy_from ccy_to : Currency)
    : result Decimal :=
  let pair := code ccy_from ++ code ccy_to in
  if Currency_eqb ccy_from ccy_to then Ok Dec.one
  else if Dict.mem pair cache then Dict.getitem pair cache
  else
    let reverse := code ccy_to ++ code ccy_from in
    if Dict.mem reverse cache
    then r <- Dict.getitem reverse cache ;; Dec.div Dec.one r
    else Raise (HTTPException 400 ("Unsupported pair " ++ pair)).

Section Service.

(** [CACHE_TTL = int(os.getenv("CACHE_TTL", "300"))], in seconds. *)
Variable CACHE_TTL : Z.

(** The test of the first [if] of [_get_rates_cached]. *)
Definition cache_valid (w : World) : bool :=
  Dict.truthy (_cache w) &&
  match _cache_expiry w with
  | Some expiry => (clock w <? expiry)%Z
  | None => false
  end.

Definition _get_rates_cached : M rates :=
  fun w =>
    if cache_valid w then read_cache w
    else
      (prices <- _fetch_rates ;;
       cross_rates <- lift (_build_cross_rates prices) ;;
       write_cache (Dict.merge prices cross_rates) ;;;
       now <- utcnow ;;
       write_cache_expiry (Some (now + CACHE_TTL * 1000000)%Z) ;;;
       read_cache) w.

Definition convert (ccy_from ccy_to : Currency) (quantity : Decimal)
    : M Conversion :=
  try_except
    (cache <- _get_rates_cached ;;
     rate <- lift (convert_rate cache ccy_from ccy_to) ;;
     converted <- lift (round_number (Dec.mul quantity rate)) ;;
     ret (mkConversion converted ccy_to))
    convert_handlers.

End Service.

(* ------------------------------------------------------------------------- *)
(** ** The debugging endpoint *)

(** The body of the answer of [/rates]: the two dictionaries under
    [binance_prices] and [derived_cross_rates], as decimals. *)
Record RatesResponse := mkRatesResponse {
  binance_prices : rates;
  derived_cross_rates : rates
}.

Module Api.

(** [GET /rates]: for debugging purposes. *)
Definition rates (CACHE_TTL : Z) : M RatesResponse :=
  cache <- _get_rates_cached CACHE_TTL ;;
  let raw := filter (fun kv => startswith (fst kv) "BTC") cache in
  let xrs := filter (fun kv => negb (startswith (fst kv) "BTC")) cache in
  ret (mkRatesResponse raw xrs).

End Api.

(* ------------------------------------------------------------------------- *)
(** ** Vocabulary of the statements *)

Open Scope Z_scope.

(** The key of a directed pair, [f"{a}{b}"]. *)
Definition pair_key (a b : Currency) : string := code a ++ code b.

(** The raw symbol of a fiat currency other than the reference. *)
Definition bridge_symbol (f : Currency) : string := "BTC" ++ code f.

(** A well-formed bridge-price mapping: a dictionary (no key twice) of
    strictly positive prices. *)
Definition BridgePrice (prices : rates) : Prop :=
  NoDup (Dict.keys prices) /\ forall k v, In (k, v) prices -> positive v.

(** Which arm of the chain in [convert] serves a request. *)
Inductive branch := Identity | Direct | Reciprocal | Unsupported.

Definition convert_branch (cache : rates) (ccy_from ccy_to : Currency) : branch :=
  if Currency_eqb ccy_from ccy_to then Identity
  else if Dict.mem (pair_key ccy_from ccy_to) cache then Direct
  else if Dict.mem (pair_key ccy_to ccy_from) cache then Reciprocal
  else Unsupported.

(** An exception as it leaves [convert]. *)
Definition at_boundary (e : exn) : exn :=
  match e with
  | HTTPException _ _ => e
  | _ => HTTPException 500 ("Unexpected error: " ++ exn_str e)
  end.

(** What [convert] answers once the table is there and the rate resolved. *)
Definition respond (quantity : Decimal) (ccy_to : Currency)
    (rate : result Decimal) : result Conversion :=
  match (r <- rate ;;
         converted <- round_number (Dec.mul quantity r) ;;
         Ok (mkConversion converted ccy_to)) with
  | Ok c => Ok c
  | Raise e => Raise (at_boundary e)
  end.

(** Round half up to hundredths, on rationals: the number of cents. *)
Definition half_up_cents (x : Q) : Z := Qfloor (100 * x + (1 # 2))%Q.

(** All six directed pairs are keys of a table. *)
Definition complete (table : rates) : Prop :=
  forall a b, a <> b -> Dict.mem (pair_key a b) table = true.

(** The world after a refresh that ended at [w1] stored [table]. *)
Definition refreshed (CACHE_TTL : Z) (w1 : World) (table : rates) : World :=
  mkWorld table (Some (clock w1 + CACHE_TTL * 1000000)%Z) (clock w1)
          (upstream w1) (requests w1).

(** The world after one more request for [sym]. *)
Definition after_request (w : World) (sym : string) : World :=
  mkWorld (_cache w) (_cache_expiry w)
          (clock w + snd (upstream w (List.length (requests w)) sym))%Z
          (upstream w) (requests w ++ [sym]).

(** The cache is non-empty and the clock is strictly before the expiry. *)
Definition fresh (w : World) : Prop :=
  _cache w <> [] /\
  exists expiry, _cache_expiry w = Some expiry /\ (clock w < expiry)%Z.

(** The scaled operands of a division: [Dec.div a b] takes the integer
    quotient of [div_num a b] by [div_den a b]. *)
Definition div_shift (a b : Decimal) : Z :=
  ndigits (d_int b) - ndigits (d_int a) + prec + 1.
Definition div_num (a b : Decimal) : Z :=
  if 0 <=? div_shift a b then d_int a * 10 ^ div_shift a b else d_int a.
Definition div_den (a b : Decimal) : Z :=
  if 0 <=? div_shift a b then d_int b else d_int b * 10 ^ (- div_shift a b).

Definition pow10 (e : Z) : Q := ((10 # 1) ^ e)%Q.

(** Relative error of one division at 28 digits, with a margin: 7e-28. *)
Definition eps : Q := 7 # (10 ^ 28)%positive.


(** The coefficient is a natural number, as [decimal] keeps it. *)
Definition wf (d : Decimal) : Prop := 0 <= d_int d.


(** The symbol is not skipped by the loop. *)
Definition processed (symbol : string) : bool :=
  negb (String.eqb symbol "BTCUSDT" || negb (startswith symbol "BTC")).

(* ------------------------------------------------------------------------- *)
(** ** Sample worlds: the quotes of the test suite *)

(** BTCUSDT = 100000, BTCEUR = 90000, BTCGBP = 80000; a request takes 5 us. *)
Definition test_upstream (n : nat) (sym : string) : http_outcome * Z :=
  let price :=
    if String.eqb sym "BTCUSDT" then 100000
    else if String.eqb sym "BTCEUR" then 90000 else 80000 in
  (Response 200 (Payload (PriceDecimal (Dec.of_Z price))), 5)%Z.

(** An upstream that answers every request with status 503. *)
Definition down_upstream (n : nat) (sym : string) : http_outcome * Z :=
  (Response 503 (Undecodable "Service Unavailable"), 5)%Z.

Definition test_prices : rates :=
  [("BTCUSDT", Dec.of_Z 100000); ("BTCEUR", Dec.of_Z 90000);
   ("BTCGBP", Dec.of_Z 80000)].

Definition test_cross_rates : rates :=
  [("EURUSD", mkDecimal false 1111111111111111111111111111 (-27));
   ("USDEUR", mkDecimal false 9 (-1));
   ("GBPUSD", mkDecimal false 125 (-2));
   ("USDGBP", mkDecimal false 8 (-1));
   ("EURGBP", mkDecimal false 8888888888888888888888888888 (-28));
   ("GBPEUR", mkDecimal false 1125000000000000000000000000 (-27))].

Definition test_table : rates := (test_prices ++ test_cross_rates)%list.

(** Process start, and the same process after its first refresh. *)
Definition world_start : World := mkWorld [] None 0 test_upstream [].
Definition world_warm : World :=
  mkWorld test_table (Some 300000015%Z) 15 test_upstream symbols.

(** Process start with the upstream down; a stale cache with it down. *)
Definition world_down : World := mkWorld [] None 0 down_upstream [].

(** A table with USDEUR only, and the world that serves it. *)
Definition partial_table : rates := [("USDEUR", mkDecimal false 9 (-1))].
Definition world_partial : World :=
  mkWorld partial_table (Some 300000015%Z) 15 test_upstream symbols.

(* ------------------------------------------------------------------------- *)
(** ** Runs of the process, and further vocabulary *)

(** The keys of the derived rates, in the order [_build_cross_rates] on the
    fetched prices inserts them. *)
Definition pair_keys : list string :=
  ["EURUSD"; "USDEUR"; "GBPUSD"; "USDGBP"; "EURGBP"; "GBPEUR"].

(** The same process at another reading of the clock. *)
Definition at_time (w : World) (t : Z) : World :=
  mkWorld (_cache w) (_cache_expiry w) t (upstream w) (requests w).

(** The worlds a process goes through: it starts with an empty cache and no
    expiry; requests run the cache getter; time passes. *)
Inductive reachable (CACHE_TTL : Z) : World -> Prop :=
| reach_start t up : reachable CACHE_TTL (mkWorld [] None t up [])
| reach_get w :
    reachable CACHE_TTL w ->
    reachable CACHE_TTL (snd (_get_rates_cached CACHE_TTL w))
| reach_time w t : reachable CACHE_TTL w -> reachable CACHE_TTL (at_time w t).

(** The cache is empty and has no expiry, or holds the three prices and the
    six rates and has one. *)
Definition cache_shape (w : World) : Prop :=
  (_cache w = [] /\ _cache_expiry w = None) \/
  (Dict.keys (_cache w) = (symbols ++ pair_keys)%list /\
   exists expiry, _cache_expiry w = Some expiry).

(** The bound on the relative error of a stored rate: 3e-27. *)
Definition rate_tolerance : Q := 3 # (10 ^ 27)%positive.

(** The symbols before position [i] are answered with a price. *)
Definition answered_before (w : World) (i : nat) : Prop :=
  forall j sym, (j < i)%nat -> nth_error symbols j = Some sym ->
    exists price elapsed,
      upstream w (List.length (requests w) + j) sym
        = (Response 200 (Payload (PriceDecimal price)), elapsed).

(** Not an [HTTPException]. *)
Definition internal (e : exn) : Prop :=
  match e with HTTPException _ _ => False | _ => True end.

(** The price of one unit of the bridge asset in a currency. *)
Definition quote (btc_usd btc_eur btc_gbp : Decimal) (c : Currency) : Decimal :=
  match c with USD => btc_usd | EUR => btc_eur | GBP => btc_gbp end.

(** Two good answers, then a 503 for BTCGBP. *)
Definition flaky_upstream (n : nat) (sym : string) : http_outcome * Z :=
  if String.eqb sym "BTCGBP"
  then (Response 503 (Undecodable "Service Unavailable"), 5)
  else test_upstream n sym.

(** Good answers, but the payload for BTCEUR has no price. *)
Definition sloppy_upstream (n : nat) (sym : string) : http_outcome * Z :=
  if String.eqb sym "BTCEUR"
  then (Response 200 (Payload PriceAbsent), 5)
  else test_upstream n sym.

(** The second request times out. *)
Definition timeout_upstream (n : nat) (sym : string) : http_outcome * Z :=
  if String.eqb sym "BTCEUR"
  then (TransportError "timed out", 10000000)
  else test_upstream n sym.

(* ------------------------------------------------------------------------- *)
(** ** Dictionaries *)

Module DictFacts.
Import Dict.
Section WithValue.
Context {V : Type}.
Implicit Types (d : dict V) (k : string) (v : V).

Lemma get_set_same k v d : get k (set k v d) = Some v.
Proof.
  induction d as [|[k' v'] d IH]; simpl.
  - now rewrite String.eqb_refl.
  - destruct (String.eqb k k') eqn:E; simpl; rewrite ?String.eqb_refl, ?E; auto.
Qed.

Lemma get_set_other k k' v d : k <> k' -> get k (set k' v d) = get k d.
Proof.
  intros Hne. induction d as [|[k0 v0] d IH]; simpl.
  - apply String.eqb_neq in Hne. now rewrite Hne.
  - destruct (String.eqb k' k0) eqn:E; simpl.
    + apply String.eqb_eq in E; subst k0.
      apply String.eqb_neq in Hne. now rewrite Hne.
    + destruct (String.eqb k k0); auto.
Qed.

Lemma get_set k k' v d :
  get k (set k' v d) = if String.eqb k k' then Some v else get k d.
Proof.
  destruct (String.eqb_spec k k') as [->|Hne].
  - apply get_set_same.
  - now apply get_set_other.
Qed.

Lemma mem_set k k' v d : mem k (set k' v d) = String.eqb k k' || mem k d.
Proof. unfold mem. rewrite get_set. now destruct (String.eqb k k'). Qed.

Lemma mem_fold_set k (b a : dict V) :
  mem k (fold_left (fun acc kv => set (fst kv) (snd kv) acc) b a) = true <->
  mem k a = true \/ In k (keys b).
Proof.
  revert a. induction b as [|[k' v'] b IH]; intros a; simpl.
  - tauto.
  - rewrite IH, mem_set. destruct (String.eqb_spec k k') as [->|Hne]; simpl.
    + tauto.
    + split; intros [H|H]; auto.
      destruct H as [H|H]; [congruence | auto].
Qed.

Lemma mem_In k d : mem k d = true <-> In k (keys d).
Proof.
  unfold mem. induction d as [|[k' v'] d IH]; simpl.
  - split; [discriminate | tauto].
  - destruct (String.eqb_spec k k') as [->|Hne].
    + tauto.
    + rewrite IH. split; auto. intros [H|H]; auto. congruence.
Qed.

Lemma mem_merge k (a b : dict V) :
  mem k (merge a b) = mem k a || mem k b.
Proof.
  apply eq_true_iff_eq. unfold merge.
  rewrite mem_fold_set, orb_true_iff, (mem_In k b). tauto.
Qed.

Lemma get_In k v d : get k d = Some v -> In (k, v) d.
Proof.
  induction d as [|[k' v'] d IH]; simpl; [discriminate|].
  destruct (String.eqb_spec k k') as [->|Hne].
  - intros [= ->]. now left.
  - auto.
Qed.

Lemma get_None_notin k d : get k d = None <-> ~ In k (keys d).
Proof.
  rewrite <- mem_In. unfold mem. destruct (get k d); split; congruence.
Qed.

Lemma getitem_Some k v d : get k d = Some v -> getitem k d = Ok v.
Proof. unfold getitem. now intros ->. Qed.

End WithValue.
End DictFacts.

(* ------------------------------------------------------------------------- *)
(** ** Decimal arithmetic: digits, rounding and error bounds *)

Module DecFacts.
#[local] Open Scope Z_scope.

Lemma ndigits_fuel_pos fuel n : 1 <= ndigits_fuel fuel n.
Proof.
  revert n. induction fuel as [|f IH]; intros n; cbn [ndigits_fuel]; [lia|].
  destruct (n <? 10); [lia|]. specialize (IH (n / 10)). lia.
Qed.

Lemma ndigits_fuel_spec fuel : forall n,
  0 < n -> n < 10 ^ (Z.of_nat fuel + 1) ->
  10 ^ (ndigits_fuel fuel n - 1) <= n < 10 ^ ndigits_fuel fuel n.
Proof.
  induction fuel as [|f IH]; intros n Hpos Hlt.
  - simpl in *. lia.
  - cbn [ndigits_fuel]. destruct (Z.ltb_spec n 10) as [H10|H10].
    + simpl. lia.
    + assert (Hq : 0 < n / 10) by (apply Z.div_str_pos; lia).
      assert (Hqlt : n / 10 < 10 ^ (Z.of_nat f + 1)).
      { apply Z.div_lt_upper_bound; [lia|].
        rewrite <- Z.pow_succ_r by lia.
        replace (Z.succ (Z.of_nat f + 1)) with (Z.of_nat (S f) + 1) by lia.
        exact Hlt. }
      specialize (IH _ Hq Hqlt).
      pose proof (ndigits_fuel_pos f (n / 10)) as Hd.
      set (d := ndigits_fuel f (n / 10)) in *.
      replace (1 + d - 1) with (Z.succ (d - 1)) by lia.
      replace (1 + d) with (Z.succ d) by lia.
      rewrite !Z.pow_succ_r by lia.
      pose proof (Z.div_mod n 10 ltac:(lia)) as Hdm.
      pose proof (Z.mod_pos_bound n 10 ltac:(lia)) as Hm.
      lia.
Qed.

Lemma ndigits_spec n :
  0 < n -> 1 <= ndigits n /\ 10 ^ (ndigits n - 1) <= n < 10 ^ ndigits n.
Proof.
  intros Hpos. unfold ndigits. split; [apply ndigits_fuel_pos|].
  apply ndigits_fuel_spec; [exact Hpos|].
  rewrite Z2Nat.id by apply Z.log2_nonneg.
  destruct (Z.log2_spec n Hpos) as [_ H2].
  eapply Z.lt_le_trans; [exact H2|].
  replace (Z.log2 n + 1) with (Z.succ (Z.log2 n)) by lia.
  apply Z.pow_le_mono_l. lia.
Qed.

Lemma ndigits_unique n d :
  10 ^ (d - 1) <= n < 10 ^ d -> 1 <= d -> ndigits n = d.
Proof.
  intros [Hlo Hhi] Hd.
  assert (Hpos : 0 < n).
  { eapply Z.lt_le_trans; [|exact Hlo]. apply Z.pow_pos_nonneg; lia. }
  destruct (ndigits_spec n Hpos) as (H1 & Hlo' & Hhi').
  destruct (Z.lt_trichotomy (ndigits n) d) as [Hlt|[Heq|Hgt]]; [|exact Heq|].
  - assert (10 ^ ndigits n <= 10 ^ (d - 1)) by (apply Z.pow_le_mono_r; lia). lia.
  - assert (10 ^ d <= 10 ^ (ndigits n - 1)) by (apply Z.pow_le_mono_r; lia). lia.
Qed.

Lemma ndigits_le_iff n d : 0 < n -> 0 <= d -> (ndigits n <= d <-> n < 10 ^ d).
Proof.
  intros Hpos Hd. destruct (ndigits_spec n Hpos) as (H1 & Hlo & Hhi). split.
  - intros Hle. eapply Z.lt_le_trans; [exact Hhi|]. apply Z.pow_le_mono_r; lia.
  - intros Hlt. destruct (Z.le_gt_cases (ndigits n) d) as [|Hgt]; [assumption|].
    assert (10 ^ d <= 10 ^ (ndigits n - 1)) by (apply Z.pow_le_mono_r; lia). lia.
Qed.


Lemma pow10_pos k : 0 <= k -> 0 < 10 ^ k.
Proof. intros. apply Z.pow_pos_nonneg; lia. Qed.

Lemma round_half_even_bound c k :
  0 <= c -> 0 <= k ->
  c / 10 ^ k <= round_half_even c k <= c / 10 ^ k + 1 /\
  2 * Z.abs (round_half_even c k * 10 ^ k - c) <= 10 ^ k.
Proof.
  intros Hc Hk. unfold round_half_even.
  pose proof (pow10_pos k Hk) as Hp. set (p := 10 ^ k) in *.
  pose proof (Z.div_mod c p ltac:(lia)) as Hdm.
  pose proof (Z.mod_pos_bound c p Hp) as Hm.
  destruct ((p <? 2 * (c mod p)) || ((2 * (c mod p) =? p) && Z.odd (c / p))) eqn:E.
  - assert (p <= 2 * (c mod p)).
    { apply orb_true_iff in E. destruct E as [E|E].
      - apply Z.ltb_lt in E. lia.
      - apply andb_true_iff in E. destruct E as [E _]. apply Z.eqb_eq in E. lia. }
    split; [lia|]. nia.
  - apply orb_false_iff in E. destruct E as [E _]. apply Z.ltb_ge in E.
    split; [lia|]. nia.
Qed.

Lemma round_half_up_bound c k :
  0 <= c -> 0 <= k ->
  2 * round_half_up c k * 10 ^ k <= 2 * c + 10 ^ k < 2 * (round_half_up c k + 1) * 10 ^ k.
Proof.
  intros Hc Hk. unfold round_half_up.
  pose proof (pow10_pos k Hk) as Hp. set (p := 10 ^ k) in *.
  pose proof (Z.div_mod c p ltac:(lia)) as Hdm.
  pose proof (Z.mod_pos_bound c p Hp) as Hm.
  destruct (Z.leb_spec p (2 * (c mod p))); nia.
Qed.

Lemma fix_spec s c e :
  0 < c ->
  exists cr K,
    _fix (mkDecimal s c e) = mkDecimal s cr (e + K) /\ 0 <= K /\
    0 < cr < 10 ^ prec /\
    2 * 10 ^ (prec - 1) * Z.abs (cr * 10 ^ K - c) <= c /\
    (ndigits c <= prec -> K = 0 /\ cr = c).
Proof.
  intros Hpos. unfold _fix. cbn [d_int d_sign d_exp].
  destruct (Z.eqb_spec c 0) as [->|_]; [lia|].
  destruct (ndigits_spec c Hpos) as (Hn1 & Hlo & Hhi).
  assert (Hprec : 10 ^ prec = 10 * 10 ^ (prec - 1)) by reflexivity.
  assert (Hp27 : 0 < 10 ^ (prec - 1)) by reflexivity.
  destruct (Z.leb_spec (ndigits c) prec) as [Hle|Hgt].
  - exists c, 0. rewrite Z.add_0_r. repeat split; try lia.
    apply ndigits_le_iff; [lia | unfold prec; lia | exact Hle].
  - set (k := ndigits c - prec) in *.
    assert (Hk : 0 < k) by (unfold k; lia).
    pose proof (pow10_pos k ltac:(lia)) as Hp.
    assert (Hlo' : 10 ^ (prec - 1) * 10 ^ k <= c).
    { rewrite <- Z.pow_add_r by (unfold prec; lia).
      replace (prec - 1 + k) with (ndigits c - 1) by (unfold k; lia). exact Hlo. }
    assert (Hhi' : c < 10 ^ prec * 10 ^ k).
    { rewrite <- Z.pow_add_r by (unfold prec; lia).
      replace (prec + k) with (ndigits c) by (unfold k; lia). exact Hhi. }
    destruct (round_half_even_bound c k ltac:(lia) ltac:(lia)) as [[Hq1 Hq2] Herr].
    assert (Hqlo : 10 ^ (prec - 1) <= c / 10 ^ k)
      by (apply Z.div_le_lower_bound; lia).
    assert (Hqhi : c / 10 ^ k < 10 ^ prec)
      by (apply Z.div_lt_upper_bound; lia).
    set (c' := round_half_even c k) in *.
    destruct (Z.ltb_spec prec (ndigits c')) as [Hcarry|Hfit].
    + assert (Hc' : c' = 10 ^ prec).
      { assert (~ c' < 10 ^ prec).
        { intros Hlt. apply ndigits_le_iff in Hlt; [lia | lia | unfold prec; lia]. }
        lia. }
      exists (10 ^ (prec - 1)), (k + 1).
      replace (e + (k + 1)) with (e + k + 1) by lia.
      rewrite Hc'. replace (10 ^ prec / 10) with (10 ^ (prec - 1)) by reflexivity.
      repeat split; try lia.
      replace (10 ^ (prec - 1) * 10 ^ (k + 1)) with (c' * 10 ^ k).
      * nia.
      * rewrite Hc', Z.pow_add_r, Hprec by lia. change (10 ^ 1) with 10. ring.
    + exists c', k. repeat split; try lia.
      * apply ndigits_le_iff; [lia | unfold prec; lia | exact Hfit].
      * nia.
Qed.


Lemma strip_zeros_spec fuel : forall coeff exp,
  0 < coeff ->
  exists c' j, strip_zeros fuel coeff exp = (c', exp + j) /\ 0 <= j /\
               0 < c' /\ c' * 10 ^ j = coeff.
Proof.
  induction fuel as [|f IH]; intros coeff exp Hpos; cbn [strip_zeros].
  - exists coeff, 0. rewrite Z.add_0_r, Z.pow_0_r. repeat split; lia.
  - destruct (Z.eqb_spec (coeff mod 10) 0) as [Hm|Hm].
    + pose proof (Z.div_mod coeff 10 ltac:(lia)) as Hdm.
      destruct (IH (coeff / 10) (exp + 1) ltac:(lia)) as (c' & j & Heq & Hj & Hc' & Hval).
      exists c', (1 + j). rewrite Heq. repeat split; try lia.
      * f_equal. lia.
      * rewrite Z.pow_add_r by lia. change (10 ^ 1) with 10. lia.
    + exists coeff, 0. rewrite Z.add_0_r, Z.pow_0_r. repeat split; lia.
Qed.

Lemma div_operands a b :
  0 < d_int a -> 0 < d_int b ->
  0 < div_den a b /\ 10 ^ prec * div_den a b <= div_num a b.
Proof.
  intros Ha Hb. unfold div_num, div_den.
  destruct (ndigits_spec _ Ha) as (Ha1 & Halo & Hahi).
  destruct (ndigits_spec _ Hb) as (Hb1 & Hblo & Hbhi).
  set (la := ndigits (d_int a)) in *. set (lb := ndigits (d_int b)) in *.
  assert (Hs : div_shift a b = lb - la + prec + 1) by reflexivity.
  destruct (Z.leb_spec 0 (div_shift a b)) as [Hsh|Hsh].
  - split; [lia|].
    pose proof (pow10_pos (div_shift a b) Hsh) as Hps.
    assert (H1 : 10 ^ prec * 10 ^ lb <= 10 ^ (la - 1) * 10 ^ div_shift a b).
    { rewrite <- !Z.pow_add_r by (unfold prec; lia).
      apply Z.pow_le_mono_r; lia. }
    assert (H2 : 10 ^ prec * d_int b <= 10 ^ prec * 10 ^ lb)
      by (apply Z.mul_le_mono_nonneg_l; [unfold prec | ]; lia).
    assert (H3 : 10 ^ (la - 1) * 10 ^ div_shift a b <= d_int a * 10 ^ div_shift a b)
      by (apply Z.mul_le_mono_nonneg_r; lia).
    lia.
  - pose proof (pow10_pos (- div_shift a b) ltac:(lia)) as Hps.
    split; [nia|].
    assert (H1 : 10 ^ prec * (10 ^ lb * 10 ^ (- div_shift a b)) <= 10 ^ (la - 1)).
    { rewrite <- !Z.pow_add_r by (unfold prec; lia).
      apply Z.pow_le_mono_r; unfold prec in *; lia. }
    assert (H2 : d_int b * 10 ^ (- div_shift a b) <= 10 ^ lb * 10 ^ (- div_shift a b))
      by (apply Z.mul_le_mono_nonneg_r; lia).
    assert (H3 : 10 ^ prec * (d_int b * 10 ^ (- div_shift a b))
                 <= 10 ^ prec * (10 ^ lb * 10 ^ (- div_shift a b)))
      by (apply Z.mul_le_mono_nonneg_l; [unfold prec | ]; lia).
    lia.
Qed.

Lemma div_spec_Z a b :
  0 < d_int a -> 0 < d_int b ->
  exists cr K,
    div a b = Ok (mkDecimal (xorb (d_sign a) (d_sign b)) cr
                            (d_exp a - d_exp b - div_shift a b + K)) /\
    0 <= K /\ 0 < cr < 10 ^ prec /\
    10 ^ prec * Z.abs (cr * 10 ^ K * div_den a b - div_num a b) <= 7 * div_num a b.
Proof.
  intros Ha Hb.
  destruct (div_operands a b Ha Hb) as [HD HND].
  unfold div, is_zero.
  destruct (Z.eqb_spec (d_int b) 0) as [|_]; [lia|].
  destruct (Z.eqb_spec (d_int a) 0) as [|_]; [lia|].
  fold (div_shift a b).
  set (exp := d_exp a - d_exp b - div_shift a b).
  assert (Hde : (if 0 <=? div_shift a b
                 then Z.div_eucl (d_int a * 10 ^ div_shift a b) (d_int b)
                 else Z.div_eucl (d_int a) (d_int b * 10 ^ (- div_shift a b)))
                = Z.div_eucl (div_num a b) (div_den a b)).
  { unfold div_num, div_den. now destruct (0 <=? div_shift a b). }
  rewrite Hde. clear Hde.
  set (N := div_num a b) in *. set (D := div_den a b) in *.
  pose proof (Z.div_mod N D ltac:(lia)) as Hdm.
  pose proof (Z.mod_pos_bound N D HD) as Hm.
  unfold Z.modulo, Z.div in Hdm, Hm.
  destruct (Z.div_eucl N D) as [coeff rem].
  assert (HP : 10 ^ prec = 10 * 10 ^ (prec - 1)) by reflexivity.
  assert (HP27 : 0 < 10 ^ (prec - 1)) by reflexivity.
  set (P := 10 ^ prec) in *. set (P27 := 10 ^ (prec - 1)) in *.
  assert (Hcoeff : P <= coeff) by nia.
  assert (H5D : 5 * D <= P * D) by (apply Z.mul_le_mono_nonneg_r; lia).
  destruct (Z.eqb_spec rem 0) as [Hr|Hr].
  - destruct (strip_zeros_spec (Z.to_nat (d_exp a - d_exp b - exp)) coeff exp
                ltac:(lia)) as (c' & j & -> & Hj & Hc' & Hval).
    destruct (fix_spec (xorb (d_sign a) (d_sign b)) c' (exp + j) Hc')
      as (cr & K & -> & HK & Hcr & Herr & _).
    exists cr, (j + K). replace (exp + (j + K)) with (exp + j + K) by lia.
    repeat split; try lia.
    fold P27 in Herr.
    pose proof (pow10_pos j Hj) as Hpj.
    assert (Heq : cr * 10 ^ (j + K) * D - N = (cr * 10 ^ K - c') * (10 ^ j * D)).
    { rewrite Z.pow_add_r by lia. subst rem. nia. }
    rewrite Heq, Z.abs_mul, (Z.abs_eq (10 ^ j * D)) by nia.
    assert (2 * P27 * Z.abs (cr * 10 ^ K - c') * (10 ^ j * D) <= c' * (10 ^ j * D))
      by (apply Z.mul_le_mono_nonneg_r; nia).
    nia.
  - set (q' := if coeff mod 5 =? 0 then coeff + 1 else coeff).
    assert (Hq' : coeff <= q' <= coeff + 1)
      by (unfold q'; destruct (coeff mod 5 =? 0); lia).
    cbv beta iota zeta.
    destruct (fix_spec (xorb (d_sign a) (d_sign b)) q' exp ltac:(lia))
      as (cr & K & -> & HK & Hcr & Herr & _).
    exists cr, K. repeat split; try lia.
    fold P27 in Herr.
    set (X := cr * 10 ^ K - q') in *.
    assert (Heq : cr * 10 ^ K * D - N = X * D + (q' * D - N)) by (unfold X; ring).
    assert (HY : Z.abs (q' * D - N) <= D) by nia.
    assert (HXD : 2 * P27 * Z.abs X * D <= q' * D)
      by (apply Z.mul_le_mono_nonneg_r; lia).
    assert (HqD : q' * D <= N + D) by nia.
    assert (Htri : Z.abs (X * D + (q' * D - N)) <= Z.abs X * D + D).
    { eapply Z.le_trans; [apply Z.abs_triangle|].
      rewrite Z.abs_mul, (Z.abs_eq D) by lia. lia. }
    rewrite Heq.
    assert (P * Z.abs (X * D + (q' * D - N)) <= P * (Z.abs X * D + D))
      by (apply Z.mul_le_mono_nonneg_l; lia).
    nia.
Qed.


(** *** From integers to rationals *)

Lemma pow10Q_pos e : (0 < pow10 e)%Q.
Proof. apply Qpower_0_lt. reflexivity. Qed.

Lemma pow10Q_add a b : (pow10 (a + b) == pow10 a * pow10 b)%Q.
Proof. apply Qpower_plus. discriminate. Qed.

Lemma pow10Q_Z k : 0 <= k -> (pow10 k == inject_Z (10 ^ k))%Q.
Proof. intros Hk. unfold pow10. now rewrite Zpower_Qpower. Qed.

Lemma mag_eq d : (mag d == inject_Z (d_int d) * pow10 (d_exp d))%Q.
Proof. reflexivity. Qed.

Lemma mag_pos d : 0 < d_int d -> (0 < mag d)%Q.
Proof.
  intros H. rewrite mag_eq. apply Qmult_lt_0_compat; [|apply pow10Q_pos].
  replace 0%Q with (inject_Z 0) by reflexivity. now rewrite <- Zlt_Qlt.
Qed.

Lemma toQ_positive d : positive d -> toQ d = mag d /\ (0 < toQ d)%Q.
Proof.
  intros [Hs Hc]. unfold toQ. rewrite Hs. split; [reflexivity | now apply mag_pos].
Qed.

Lemma scaled_error (X N : Z) (S x y : Q) :
  (0 < S)%Q -> (x - y == inject_Z X * S)%Q -> (y == inject_Z N * S)%Q ->
  10 ^ prec * Z.abs X <= 7 * N ->
  (Qabs (x - y) <= eps * y)%Q.
Proof.
  intros HS Hx Hy Hle. rewrite Hx, Hy, Qabs_Qmult, (Qabs_pos S) by now apply Qlt_le_weak.
  rewrite Qmult_assoc. apply Qmult_le_compat_r; [|now apply Qlt_le_weak].
  assert (HabsX : (Qabs (inject_Z X) == inject_Z (Z.abs X))%Q).
  { unfold inject_Z. now rewrite <- Zabs_Qabs. }
  rewrite HabsX. unfold eps, Qle, Qmult, inject_Z. cbn [Qnum Qden].
  change (10 ^ prec) with 10000000000000000000000000000 in Hle.
  change (Z.pos (10 ^ 28)) with 10000000000000000000000000000.
  lia.
Qed.

Lemma div_spec a b :
  0 < d_int a -> 0 < d_int b ->
  exists r,
    div a b = Ok r /\ d_sign r = xorb (d_sign a) (d_sign b) /\
    0 < d_int r < 10 ^ prec /\
    (Qabs (mag r * mag b - mag a) <= eps * mag a)%Q.
Proof.
  intros Ha Hb.
  destruct (div_spec_Z a b Ha Hb) as (cr & K & Hdiv & HK & Hcr & Herr).
  eexists. split; [exact Hdiv|]. cbn [d_sign d_int d_exp].
  split; [reflexivity|]. split; [exact Hcr|].
  rewrite !mag_eq. cbn [d_int d_exp].
  set (exp := d_exp a - d_exp b - div_shift a b).
  unfold div_num, div_den in Herr.
  destruct (Z.leb_spec 0 (div_shift a b)) as [Hsh|Hsh].
  - apply (scaled_error (cr * 10 ^ K * d_int b - d_int a * 10 ^ div_shift a b)
                         (d_int a * 10 ^ div_shift a b)
                         (pow10 (exp + d_exp b)));
      [apply pow10Q_pos | | | exact Herr].
    + replace (d_exp a) with (exp + d_exp b + div_shift a b) by (unfold exp; lia).
      unfold Z.sub.
      rewrite inject_Z_plus, inject_Z_opp, !inject_Z_mult, !pow10Q_add,
        <- !pow10Q_Z by lia.
      ring.
    + replace (d_exp a) with (exp + d_exp b + div_shift a b) by (unfold exp; lia).
      rewrite !inject_Z_mult, !pow10Q_add, <- !pow10Q_Z by lia. ring.
  - apply (scaled_error (cr * 10 ^ K * (d_int b * 10 ^ (- div_shift a b)) - d_int a)
                         (d_int a) (pow10 (d_exp a)));
      [apply pow10Q_pos | | reflexivity | exact Herr].
    replace (exp + K) with (d_exp a + - d_exp b + - div_shift a b + K)
      by (unfold exp; lia).
    unfold Z.sub.
    rewrite inject_Z_plus, inject_Z_opp, !inject_Z_mult, !pow10Q_add,
      <- !pow10Q_Z by lia.
    assert (Hb1 : (pow10 (- d_exp b) * pow10 (d_exp b) == 1)%Q).
    { rewrite <- pow10Q_add. now replace (- d_exp b + d_exp b) with 0 by lia. }
    set (u := pow10 (- d_exp b)) in *. set (v := pow10 (d_exp b)) in *.
    transitivity ((inject_Z cr * pow10 K * (inject_Z (d_int b) * pow10 (- div_shift a b))
                   * (u * v) - inject_Z (d_int a)) * pow10 (d_exp a))%Q; [ring|].
    rewrite Hb1. ring.
Qed.

Lemma div_positive a b :
  positive a -> positive b -> exists r, div a b = Ok r /\ positive r.
Proof.
  intros [Hsa Ha] [Hsb Hb].
  destruct (div_spec a b Ha Hb) as (r & Hdiv & Hs & Hc & _).
  exists r. split; [exact Hdiv|]. split; [now rewrite Hs, Hsa, Hsb | lia].
Qed.

Lemma mul_positive a b : positive a -> positive b -> positive (mul a b).
Proof.
  intros [Hsa Ha] [Hsb Hb]. unfold mul.
  destruct (fix_spec (xorb (d_sign a) (d_sign b)) (d_int a * d_int b)
              (d_exp a + d_exp b) ltac:(nia)) as (cr & K & -> & _ & Hcr & _).
  split; cbn [d_sign d_int]; [now rewrite Hsa, Hsb | lia].
Qed.


(** *** Rounding to cents *)

Lemma Qfloor_unique (x : Q) (z : Z) :
  (inject_Z z <= x)%Q -> (x < inject_Z (z + 1))%Q -> Qfloor x = z.
Proof.
  intros Hlo Hhi. apply Z.le_antisymm.
  - apply Z.lt_succ_r. rewrite Zlt_Qlt.
    eapply Qle_lt_trans; [apply Qfloor_le|]. exact Hhi.
  - rewrite <- (Qfloor_Z z). now apply Qfloor_resp_le.
Qed.

Lemma half_up_cents_mag d :
  0 <= d_int d ->
  half_up_cents (mag d) =
  if -2 <=? d_exp d then d_int d * 10 ^ (d_exp d + 2)
  else round_half_up (d_int d) (- 2 - d_exp d).
Proof.
  intros Hc. unfold half_up_cents. rewrite mag_eq.
  set (c := d_int d) in *. set (e := d_exp d) in *.
  assert (H100 : (100 == pow10 2)%Q) by reflexivity.
  destruct (Z.leb_spec (-2) e) as [He|He].
  - apply Qfloor_unique.
    + rewrite H100, inject_Z_mult, <- pow10Q_Z by lia.
      replace (e + 2) with (2 + e) by lia. rewrite pow10Q_add.
      assert (H : (0 <= pow10 2 * (inject_Z c * pow10 e))%Q); [|lra].
      apply Qmult_le_0_compat; [apply Qlt_le_weak, pow10Q_pos|].
      apply Qmult_le_0_compat; [|apply Qlt_le_weak, pow10Q_pos].
      replace 0%Q with (inject_Z 0) by reflexivity. now rewrite <- Zle_Qle.
    + rewrite inject_Z_plus, H100, inject_Z_mult, <- pow10Q_Z by lia.
      replace (e + 2) with (2 + e) by lia. rewrite pow10Q_add.
      assert (H : (pow10 2 * (inject_Z c * pow10 e) ==
                   inject_Z c * (pow10 2 * pow10 e))%Q) by ring.
      rewrite H. change (inject_Z 1) with 1%Q. lra.
  - set (k := - 2 - e) in *.
    assert (Hk : 0 < k) by (unfold k; lia).
    destruct (round_half_up_bound c k Hc ltac:(lia)) as [Hlo Hhi].
    set (z := round_half_up c k) in *.
    pose proof (pow10_pos k ltac:(lia)) as Hp.
    assert (HS : (0 < inject_Z (2 * 10 ^ k))%Q).
    { replace 0%Q with (inject_Z 0) by reflexivity. rewrite <- Zlt_Qlt. lia. }
    assert (Hx : ((100 * (inject_Z c * pow10 e) + (1 # 2)) * inject_Z (2 * 10 ^ k)
                  == inject_Z (2 * c + 10 ^ k))%Q).
    { rewrite inject_Z_plus, !inject_Z_mult, <- pow10Q_Z by lia.
      assert (H1 : (pow10 2 * pow10 e * pow10 k == 1)%Q).
      { rewrite <- !pow10Q_add. now replace (2 + e + k) with 0 by (unfold k; lia). }
      rewrite H100.
      transitivity (inject_Z 2 * inject_Z c * (pow10 2 * pow10 e * pow10 k)
                    + (1 # 2) * inject_Z 2 * pow10 k)%Q; [ring|].
      rewrite H1. change (inject_Z 2) with 2%Q. ring. }
    apply Qfloor_unique.
    + apply (Qmult_le_r _ _ _ HS). rewrite Hx, <- inject_Z_mult, <- Zle_Qle. lia.
    + apply (Qmult_lt_r _ _ _ HS). rewrite Hx, <- inject_Z_mult, <- Zlt_Qlt. lia.
Qed.

Lemma round_number_spec d :
  0 <= d_int d ->
  round_number d =
  if half_up_cents (mag d) <? 10 ^ prec
  then Ok (mkDecimal (d_sign d) (half_up_cents (mag d)) (-2))
  else Raise (DecimalException InvalidOperation).
Proof.
  intros Hc. rewrite (half_up_cents_mag d Hc).
  unfold round_number, quantize, is_zero, adjusted, cent. cbn [d_exp].
  destruct (Z.eqb_spec (d_int d) 0) as [H0|H0].
  - rewrite H0. destruct (Z.leb_spec (-2) (d_exp d)) as [He|He].
    + rewrite Z.mul_0_l. reflexivity.
    + pose proof (pow10_pos (-2 - d_exp d) ltac:(lia)) as Hp.
      unfold round_half_up. rewrite Z.div_0_l, Z.mod_0_l by lia.
      destruct (Z.leb_spec (10 ^ (-2 - d_exp d)) (2 * 0)); [lia | reflexivity].
  - assert (Hpos : 0 < d_int d) by lia.
    destruct (ndigits_spec _ Hpos) as (Hn1 & Hlo & Hhi).
    unfold _rescale, is_zero. cbn [d_exp].
    destruct (Z.eqb_spec (d_int d) 0) as [|_]; [contradiction|].
    set (c := d_int d) in *. set (e := d_exp d) in *.
    assert (Hfix : forall cr, 0 <= cr -> ~ prec < ndigits cr ->
               _fix (mkDecimal (d_sign d) cr (-2)) = mkDecimal (d_sign d) cr (-2)).
    { intros cr Hcr Hn. unfold _fix. cbn [d_int].
      destruct (cr =? 0); [reflexivity|].
      destruct (Z.leb_spec (ndigits cr) prec); [reflexivity | lia]. }
    assert (Hbig : forall cr, 0 < cr -> (prec <? ndigits cr) = negb (cr <? 10 ^ prec)).
    { intros cr Hcr.
      pose proof (ndigits_le_iff cr prec Hcr ltac:(unfold prec; lia)) as Hiff.
      destruct (Z.ltb_spec prec (ndigits cr)), (Z.ltb_spec cr (10 ^ prec));
        simpl; try reflexivity; lia. }
    destruct (Z.ltb_spec prec (ndigits c + e - 1 - -2 + 1)) as [Hadj|Hadj].
    + (* the integer part alone needs more than 26 digits *)
      assert (Hge : 10 ^ prec <= (if -2 <=? e then c * 10 ^ (e + 2)
                                  else round_half_up c (-2 - e))).
      { destruct (Z.leb_spec (-2) e) as [He|He].
        - pose proof (pow10_pos (e + 2) ltac:(lia)) as Hp.
          assert (10 ^ prec <= 10 ^ (ndigits c - 1) * 10 ^ (e + 2)).
          { rewrite <- Z.pow_add_r by lia. apply Z.pow_le_mono_r; lia. }
          assert (10 ^ (ndigits c - 1) * 10 ^ (e + 2) <= c * 10 ^ (e + 2))
            by (apply Z.mul_le_mono_nonneg_r; lia).
          lia.
        - pose proof (pow10_pos (-2 - e) ltac:(lia)) as Hp.
          destruct (round_half_up_bound c (-2 - e) ltac:(lia) ltac:(lia)) as [_ Hup].
          assert (10 ^ prec * 10 ^ (-2 - e) <= 10 ^ (ndigits c - 1)).
          { rewrite <- Z.pow_add_r by (unfold prec; lia).
            apply Z.pow_le_mono_r; unfold prec in *; lia. }
          nia. }
      destruct (Z.ltb_spec (if -2 <=? e then c * 10 ^ (e + 2)
                            else round_half_up c (-2 - e)) (10 ^ prec));
        [lia | reflexivity].
    + destruct (Z.leb_spec (-2) e) as [He|He]; cbn [d_int d_sign d_exp].
      * pose proof (pow10_pos (e + 2) ltac:(lia)) as Hp.
        replace (e - -2) with (e + 2) by lia.
        rewrite Hbig by nia.
        destruct (Z.ltb_spec (c * 10 ^ (e + 2)) (10 ^ prec)) as [Hlt|Hge];
          cbn [negb]; [|reflexivity].
        rewrite Hfix; [reflexivity | nia |].
        apply ndigits_le_iff in Hlt; [lia | nia | unfold prec; lia].
      * replace (-2 - e) with (-2 - e) by lia.
        destruct (round_half_up_bound c (-2 - e) ltac:(lia) ltac:(lia)) as [Hlo' Hup].
        pose proof (pow10_pos (-2 - e) ltac:(lia)) as Hp.
        set (z := round_half_up c (-2 - e)) in *.
        assert (Hz : 0 <= z) by nia.
        destruct (Z.eqb_spec z 0) as [Hz0|Hz0].
        { rewrite Hz0. reflexivity. }
        rewrite Hbig by lia.
        destruct (Z.ltb_spec z (10 ^ prec)) as [Hlt|Hge];
          cbn [negb]; [|reflexivity].
        rewrite Hfix; [reflexivity | lia |].
        apply ndigits_le_iff in Hlt; [lia | lia | unfold prec; lia].
Qed.

End DecFacts.

(* ------------------------------------------------------------------------- *)
(** ** The fetch: what it sends and what it leaves alone *)

Ltac monad_unfold :=
  unfold bind, ret, M_Monad, result_Monad, mbind, mret, rbind, raise, lift in *.

Lemma fetch_step_world rates_ sym w r w1 :
  fetch_step rates_ sym w = (r, w1) -> w1 = after_request w sym.
Proof.
  unfold fetch_step, client_get, after_request. monad_unfold.
  destruct (upstream w (List.length (requests w)) sym) as [[msg|sc body] dt]; simpl.
  - now intros [= _ <-].
  - destruct (negb (sc =? 200)%Z); [now intros [= _ <-]|].
    destruct body as [msg|[|d|]]; now intros [= _ <-].
Qed.

Lemma fetch_step_ok rates_ sym w rates' w1 :
  fetch_step rates_ sym w = (Ok rates', w1) ->
  exists price, rates' = Dict.set sym price rates_.
Proof.
  unfold fetch_step, client_get. monad_unfold.
  destruct (upstream w (List.length (requests w)) sym) as [[msg|sc body] dt]; simpl.
  - discriminate.
  - destruct (negb (sc =? 200)%Z); [discriminate|].
    destruct body as [msg|[|d|]]; try discriminate.
    intros [= <- _]. now exists d.
Qed.

Lemma fetch_loop_frame syms : forall rates_ w r w1,
  fetch_loop syms rates_ w = (r, w1) ->
  _cache w1 = _cache w /\ _cache_expiry w1 = _cache_expiry w /\
  upstream w1 = upstream w /\
  exists n, (n <= List.length syms)%nat /\
            requests w1 = (requests w ++ firstn n syms)%list /\
            match r with
            | Ok _ => n = List.length syms
            | Raise _ => (1 <= n)%nat
            end.
Proof.
  induction syms as [|sym rest IH]; intros rates_ w r w1; simpl.
  - monad_unfold. intros [= <- <-]. repeat split; auto.
    exists 0%nat. simpl. now rewrite app_nil_r.
  - monad_unfold.
    destruct (fetch_step rates_ sym w) as [[rates'|e] w'] eqn:Hstep;
      apply fetch_step_world in Hstep; subst w'.
    + intros Hloop. apply IH in Hloop.
      destruct Hloop as (Hc & He & Hu & n & Hn & Hreq & Hr). simpl in *.
      repeat split; auto.
      exists (S n). split; [lia|]. split.
      * rewrite Hreq, <- app_assoc. reflexivity.
      * destruct r; lia.
    + intros [= <- <-]. simpl. repeat split; auto.
      exists 1%nat. simpl. repeat split; auto; lia.
Qed.

Lemma fetch_loop_keys syms : forall rates_ w prices w1,
  fetch_loop syms rates_ w = (Ok prices, w1) ->
  forall k, Dict.mem k prices = true <-> Dict.mem k rates_ = true \/ In k syms.
Proof.
  induction syms as [|sym rest IH]; intros rates_ w prices w1; simpl.
  - monad_unfold. intros [= <- _] k. tauto.
  - monad_unfold.
    destruct (fetch_step rates_ sym w) as [[rates'|e] w'] eqn:Hstep; [|discriminate].
    apply fetch_step_ok in Hstep. destruct Hstep as [price ->].
    intros Hloop k. rewrite (IH _ _ _ _ Hloop k), DictFacts.mem_set.
    rewrite orb_true_iff, String.eqb_eq. intuition congruence.
Qed.

Lemma fetch_rates_shape w prices w1 :
  _fetch_rates w = (Ok prices, w1) ->
  exists btc_usd btc_eur btc_gbp,
    prices = [("BTCUSDT", btc_usd); ("BTCEUR", btc_eur); ("BTCGBP", btc_gbp)].
Proof.
  unfold _fetch_rates, symbols. simpl. monad_unfold.
  destruct (fetch_step [] "BTCUSDT" w) as [[r1|e] w'] eqn:H1; [|discriminate].
  apply fetch_step_ok in H1. destruct H1 as [p1 ->].
  destruct (fetch_step _ "BTCEUR" w') as [[r2|e] w''] eqn:H2; [|discriminate].
  apply fetch_step_ok in H2. destruct H2 as [p2 ->].
  destruct (fetch_step _ "BTCGBP" w'') as [[r3|e] w'''] eqn:H3; [|discriminate].
  apply fetch_step_ok in H3. destruct H3 as [p3 ->].
  intros [= <- _]. now exists p1, p2, p3.
Qed.

Lemma fetch_rates_frame w r w1 :
  _fetch_rates w = (r, w1) ->
  _cache w1 = _cache w /\ _cache_expiry w1 = _cache_expiry w /\
  upstream w1 = upstream w /\
  exists n, (1 <= n <= 3)%nat /\
            requests w1 = (requests w ++ firstn n symbols)%list /\
            match r with Ok _ => n = 3%nat | Raise _ => True end.
Proof.
  intros H. apply fetch_loop_frame in H.
  destruct H as (Hc & He & Hu & n & Hn & Hreq & Hr). simpl in Hn.
  repeat split; auto. exists n. destruct r; simpl in *; repeat split; auto; lia.
Qed.

(* ------------------------------------------------------------------------- *)
(** ** The cache getter, case by case *)

Lemma getter_valid CACHE_TTL w :
  cache_valid w = true -> _get_rates_cached CACHE_TTL w = (Ok (_cache w), w).
Proof. unfold _get_rates_cached. now intros ->. Qed.

Lemma getter_stale CACHE_TTL w :
  cache_valid w = false ->
  _get_rates_cached CACHE_TTL w =
  match _fetch_rates w with
  | (Raise e, w1) => (Raise e, w1)
  | (Ok prices, w1) =>
      match _build_cross_rates prices with
      | Raise e => (Raise e, w1)
      | Ok cross_rates =>
          let table := Dict.merge prices cross_rates in
          (Ok table, refreshed CACHE_TTL w1 table)
      end
  end.
Proof.
  unfold _get_rates_cached. intros ->. monad_unfold.
  destruct (_fetch_rates w) as [[prices|e] w1]; [|reflexivity].
  destruct (_build_cross_rates prices); reflexivity.
Qed.

Lemma convert_handlers_boundary {A} (e : exn) :
  @convert_handlers A e = raise (at_boundary e).
Proof. now destruct e. Qed.

Lemma convert_unfold CACHE_TTL ccy_from ccy_to quantity w :
  convert CACHE_TTL ccy_from ccy_to quantity w =
  match _get_rates_cached CACHE_TTL w with
  | (Ok cache, w') => (respond quantity ccy_to (convert_rate cache ccy_from ccy_to), w')
  | (Raise e, w') => (Raise (at_boundary e), w')
  end.
Proof.
  unfold convert, try_except, respond. monad_unfold.
  destruct (_get_rates_cached CACHE_TTL w) as [[cache|e] w'].
  - destruct (convert_rate cache ccy_from ccy_to) as [rate|e].
    + destruct (round_number (Dec.mul quantity rate)) as [c|e]; [reflexivity|].
      now rewrite convert_handlers_boundary.
    + now rewrite convert_handlers_boundary.
  - now rewrite convert_handlers_boundary.
Qed.

Lemma convert_rate_by_branch cache ccy_from ccy_to :
  convert_rate cache ccy_from ccy_to =
  match convert_branch cache ccy_from ccy_to with
  | Identity => Ok Dec.one
  | Direct => Dict.getitem (pair_key ccy_from ccy_to) cache
  | Reciprocal =>
      r <- Dict.getitem (pair_key ccy_to ccy_from) cache ;; Dec.div Dec.one r
  | Unsupported =>
      Raise (HTTPException 400 ("Unsupported pair " ++ pair_key ccy_from ccy_to))
  end.
Proof.
  unfold convert_rate, convert_branch, pair_key.
  destruct (Currency_eqb ccy_from ccy_to); [reflexivity|].
  destruct (Dict.mem (code ccy_from ++ code ccy_to) cache); [reflexivity|].
  destruct (Dict.mem (code ccy_to ++ code ccy_from) cache); reflexivity.
Qed.

Lemma Currency_eqb_spec a b : reflect (a = b) (Currency_eqb a b).
Proof. destruct a, b; constructor; congruence. Qed.

Lemma cache_valid_fresh w : cache_valid w = true <-> fresh w.
Proof.
  unfold cache_valid, fresh, Dict.truthy. split.
  - intros H. apply andb_true_iff in H. destruct H as [Hc He]. split.
    + destruct (_cache w); [discriminate | congruence].
    + destruct (_cache_expiry w) as [t|]; [|discriminate].
      exists t. split; [reflexivity | now apply Z.ltb_lt].
  - intros [Hc (t & -> & Hlt)]. apply andb_true_iff. split.
    + destruct (_cache w); congruence.
    + now apply Z.ltb_lt.
Qed.

Lemma cache_valid_stale w : cache_valid w = false <-> ~ fresh w.
Proof.
  rewrite <- cache_valid_fresh. destruct (cache_valid w); split; congruence.
Qed.

(* ------------------------------------------------------------------------- *)
(** ** Strings: the keys the loop writes *)

Lemma substring_all s : String.substring 0 (String.length s) s = s.
Proof. induction s as [|a s IH]; simpl; [reflexivity | now rewrite IH]. Qed.

Lemma substring_split n : forall s,
  String.substring 0 n s ++ String.substring n (String.length s - n) s = s.
Proof.
  induction n as [|n IH]; intros s.
  - rewrite Nat.sub_0_r, substring_all. now destruct s.
  - destruct s as [|a s]; simpl; [reflexivity|]. now rewrite IH.
Qed.

Lemma startswith_BTC s :
  startswith s "BTC" = true -> s = "BTC" ++ slice_from 3 s.
Proof.
  unfold startswith, slice_from. intros H.
  apply String.prefix_correct in H. change (String.length "BTC") with 3%nat in H.
  rewrite <- H. symmetry. apply substring_split.
Qed.

(** Peel a string variable [f] against a literal in [H]. *)
Ltac peel H f :=
  repeat (destruct f as [|? f]; simpl in H; try discriminate H;
          try (injection H as ? H; subst)).

Lemma fiat_usd_inj (x : Currency) f :
  x <> USD -> f ++ "USD" = pair_key x USD -> f = code x.
Proof.
  intros Hx H. destruct x; [contradiction| |]; unfold pair_key in H; simpl in H.
  - destruct f as [|a [|b [|c [|d f]]]]; simpl in H; try discriminate H.
    + now injection H as -> -> ->.
    + injection H as -> -> -> -> H. peel H f.
  - destruct f as [|a [|b [|c [|d f]]]]; simpl in H; try discriminate H.
    + now injection H as -> -> ->.
    + injection H as -> -> -> -> H. peel H f.
Qed.

Lemma usd_fiat_inj (x : Currency) f :
  "USD" ++ f = pair_key USD x -> f = code x.
Proof. unfold pair_key. simpl. now intros [= ->]. Qed.

Lemma fiat_usd_not_usd_fiat (x : Currency) f :
  x <> USD -> f ++ "USD" <> pair_key USD x.
Proof.
  intros Hx H. destruct x; [contradiction| |]; unfold pair_key in H; simpl in H;
    destruct f as [|a [|b [|c [|d f]]]]; simpl in H; try discriminate H;
    injection H as -> -> -> -> H; peel H f.
Qed.

Lemma usd_fiat_not_fiat_usd (x : Currency) f :
  x <> USD -> "USD" ++ f <> pair_key x USD.
Proof.
  intros Hx H. destruct x; [contradiction| |]; discriminate H.
Qed.

(* ------------------------------------------------------------------------- *)
(** ** The loop of [_build_cross_rates] *)

Lemma cross_step_skip btc_usd acc symbol price :
  processed symbol = false -> cross_step btc_usd acc (symbol, price) = Ok acc.
Proof.
  unfold processed, cross_step. intros H. apply negb_false_iff in H. now rewrite H.
Qed.

Lemma cross_step_write btc_usd acc symbol price acc' :
  processed symbol = true ->
  cross_step btc_usd acc (symbol, price) = Ok acc' ->
  exists fiat_usd usd_fiat,
    Dec.div btc_usd price = Ok fiat_usd /\ Dec.div price btc_usd = Ok usd_fiat /\
    acc' = Dict.set ("USD" ++ slice_from 3 symbol) usd_fiat
             (Dict.set (slice_from 3 symbol ++ "USD") fiat_usd acc).
Proof.
  unfold processed, cross_step. intros H. apply negb_true_iff in H. rewrite H.
  unfold bind, result_Monad, rbind.
  destruct (Dec.div btc_usd price) as [r1|]; [|discriminate].
  destruct (Dec.div price btc_usd) as [r2|]; [|discriminate].
  intros [= <-]. now exists r1, r2.
Qed.

Lemma processed_symbol symbol :
  processed symbol = true -> symbol = "BTC" ++ slice_from 3 symbol.
Proof.
  unfold processed. intros H. apply negb_true_iff, orb_false_iff in H.
  destruct H as [_ H]. apply negb_false_iff in H. now apply startswith_BTC.
Qed.

Lemma cross_step_other btc_usd acc symbol price acc' (x : Currency) :
  x <> USD -> symbol <> bridge_symbol x ->
  cross_step btc_usd acc (symbol, price) = Ok acc' ->
  Dict.get (pair_key x USD) acc' = Dict.get (pair_key x USD) acc /\
  Dict.get (pair_key USD x) acc' = Dict.get (pair_key USD x) acc.
Proof.
  intros Hx Hsym Hstep. destruct (processed symbol) eqn:Hp.
  - destruct (cross_step_write _ _ _ _ _ Hp Hstep) as (r1 & r2 & _ & _ & ->).
    apply processed_symbol in Hp.
    assert (Hf : slice_from 3 symbol <> code x).
    { intros Hf. apply Hsym. rewrite Hp, Hf. reflexivity. }
    set (f := slice_from 3 symbol) in *.
    split; rewrite !DictFacts.get_set_other; auto.
    + intros H. apply Hf. now apply fiat_usd_inj.
    + intros H. symmetry in H. now apply usd_fiat_not_fiat_usd in H.
    + intros H. symmetry in H. now apply fiat_usd_not_usd_fiat in H.
    + intros H. apply Hf. symmetry in H. now apply usd_fiat_inj.
  - rewrite (cross_step_skip _ _ _ _ Hp) in Hstep. now injection Hstep as <-.
Qed.

Lemma cross_step_bridge btc_usd acc price acc' (x : Currency) :
  x <> USD ->
  cross_step btc_usd acc (bridge_symbol x, price) = Ok acc' ->
  Dict.getitem (pair_key x USD) acc' = Dec.div btc_usd price /\
  Dict.getitem (pair_key USD x) acc' = Dec.div price btc_usd.
Proof.
  intros Hx Hstep.
  assert (Hp : processed (bridge_symbol x) = true) by (now destruct x).
  destruct (cross_step_write _ _ _ _ _ Hp Hstep) as (r1 & r2 & -> & -> & ->).
  unfold Dict.getitem.
  destruct x; [contradiction| |]; split; rewrite !DictFacts.get_set; reflexivity.
Qed.

Lemma cross_loop_entries btc_usd (x : Currency) :
  x <> USD ->
  forall items acc acc',
    NoDup (Dict.keys items) ->
    cross_loop btc_usd items acc = Ok acc' ->
    match Dict.get (bridge_symbol x) items with
    | Some price =>
        Dict.getitem (pair_key x USD) acc' = Dec.div btc_usd price /\
        Dict.getitem (pair_key USD x) acc' = Dec.div price btc_usd
    | None =>
        Dict.get (pair_key x USD) acc' = Dict.get (pair_key x USD) acc /\
        Dict.get (pair_key USD x) acc' = Dict.get (pair_key USD x) acc
    end.
Proof.
  intros Hx. induction items as [|[symbol price] rest IH]; intros acc acc' Hnd Hloop.
  - simpl in *. injection Hloop as <-. auto.
  - cbn [cross_loop] in Hloop. unfold bind, result_Monad, rbind in Hloop.
    destruct (cross_step btc_usd acc (symbol, price)) as [acc1|] eqn:Hstep;
      [|discriminate].
    simpl in Hnd. inversion Hnd as [|? ? Hnotin Hnd']; subst.
    specialize (IH acc1 acc' Hnd' Hloop).
    cbn [Dict.get].
    destruct (String.eqb_spec (bridge_symbol x) symbol) as [<-|Hne].
    + apply DictFacts.get_None_notin in Hnotin. rewrite Hnotin in IH.
      destruct IH as [IH1 IH2].
      destruct (cross_step_bridge _ _ _ _ _ Hx Hstep) as [H1 H2].
      unfold Dict.getitem in *. rewrite IH1, IH2. auto.
    + assert (Hne' : symbol <> bridge_symbol x) by congruence.
      destruct (cross_step_other _ _ _ _ _ x Hx Hne' Hstep) as [H1 H2].
      destruct (Dict.get (bridge_symbol x) rest); [exact IH|].
      destruct IH as [IH1 IH2]. now rewrite IH1, IH2.
Qed.

Lemma cross_loop_total btc_usd items : forall acc,
  positive btc_usd ->
  (forall k v, In (k, v) items -> positive v) ->
  exists acc', cross_loop btc_usd items acc = Ok acc'.
Proof.
  induction items as [|[symbol price] rest IH]; intros acc Hu Hpos.
  - now exists acc.
  - cbn [cross_loop]. unfold bind, result_Monad, rbind.
    assert (Hstep : exists acc1, cross_step btc_usd acc (symbol, price) = Ok acc1).
    { unfold cross_step.
      destruct (String.eqb symbol "BTCUSDT" || negb (startswith symbol "BTC"));
        [now exists acc|].
      assert (Hp : positive price) by (apply (Hpos symbol); now left).
      destruct (DecFacts.div_positive _ _ Hu Hp) as (r1 & -> & _).
      destruct (DecFacts.div_positive _ _ Hp Hu) as (r2 & -> & _).
      simpl. eauto. }
    destruct Hstep as [acc1 ->]. apply IH; [exact Hu|].
    intros k v Hin. apply (Hpos k). now right.
Qed.

Lemma one_positive : positive Dec.one.
Proof. split; [reflexivity | reflexivity]. Qed.

Lemma mem_get_Some {V} k (d : Dict.dict V) :
  Dict.mem k d = true -> exists v, Dict.get k d = Some v.
Proof. unfold Dict.mem. destruct (Dict.get k d) as [v|]; [eauto | discriminate]. Qed.

(** The table [_build_cross_rates] returns on well-formed prices, spelled
    out: the loop result with the two composed entries set last. *)
Lemma build_cross_rates_run (prices : rates) (btc_usd btc_eur btc_gbp : Decimal) :
  BridgePrice prices ->
  Dict.get "BTCUSDT" prices = Some btc_usd ->
  Dict.get "BTCEUR" prices = Some btc_eur ->
  Dict.get "BTCGBP" prices = Some btc_gbp ->
  exists loop_rates eurusd usdgbp gbpeur,
    cross_loop btc_usd prices [] = Ok loop_rates /\
    Dec.div btc_usd btc_eur = Ok eurusd /\ positive eurusd /\
    Dec.div btc_gbp btc_usd = Ok usdgbp /\ positive usdgbp /\
    Dec.div Dec.one (Dec.mul eurusd usdgbp) = Ok gbpeur /\ positive gbpeur /\
    _build_cross_rates prices =
      Ok (Dict.set "GBPEUR" gbpeur
            (Dict.set "EURGBP" (Dec.mul eurusd usdgbp) loop_rates)).
Proof.
  intros [Hnd Hpos] Hu He Hg.
  assert (Pu : positive btc_usd) by (eapply Hpos, DictFacts.get_In, Hu).
  assert (Pe : positive btc_eur) by (eapply Hpos, DictFacts.get_In, He).
  assert (Pg : positive btc_gbp) by (eapply Hpos, DictFacts.get_In, Hg).
  destruct (cross_loop_total btc_usd prices [] Pu Hpos) as [loop_rates Hloop].
  pose proof (cross_loop_entries btc_usd EUR ltac:(discriminate) _ _ _ Hnd Hloop) as HE.
  pose proof (cross_loop_entries btc_usd GBP ltac:(discriminate) _ _ _ Hnd Hloop) as HG.
  change (bridge_symbol EUR) with "BTCEUR" in HE. rewrite He in HE.
  change (bridge_symbol GBP) with "BTCGBP" in HG. rewrite Hg in HG.
  destruct HE as [HE _]. destruct HG as [_ HG].
  destruct (DecFacts.div_positive _ _ Pu Pe) as (eurusd & Hd1 & P1).
  destruct (DecFacts.div_positive _ _ Pg Pu) as (usdgbp & Hd2 & P2).
  pose proof (DecFacts.mul_positive _ _ P1 P2) as P3.
  destruct (DecFacts.div_positive _ _ one_positive P3) as (gbpeur & Hd3 & P4).
  exists loop_rates, eurusd, usdgbp, gbpeur.
  repeat (split; [assumption|]).
  unfold _build_cross_rates, Dict.mem, Dict.getitem at 1. rewrite Hu. cbn [negb].
  unfold bind, result_Monad, rbind. rewrite Hloop.
  change (pair_key EUR USD) with "EURUSD" in HE.
  change (pair_key USD GBP) with "USDGBP" in HG.
  rewrite HE, Hd1, HG, Hd2.
  unfold Dict.getitem. rewrite DictFacts.get_set_same, Hd3. reflexivity.
Qed.


Lemma test_prices_BridgePrice : BridgePrice test_prices.
Proof.
  split.
  - repeat constructor; simpl; intuition discriminate.
  - intros k v [H|[H|[H|[]]]]; injection H as <- <-; split; reflexivity.
Qed.


(* ------------------------------------------------------------------------- *)
(** ** Reciprocal rates *)









(* ------------------------------------------------------------------------- *)
(** ** The claims on the control flow *)

(** C8. When the mapping has no BTCUSDT entry, [_build_cross_rates] raises
    the 502 "BTCUSDT price missing" whatever else the mapping holds, so no
    cross-rate is computed (not even a division by a zero price is reached);
    and that exception leaves [convert] as it is, a 502. *)
Theorem missing_reference_price (prices : rates) :
  Dict.mem "BTCUSDT" prices = false ->
  _build_cross_rates prices = Raise (HTTPException 502 "BTCUSDT price missing") /\
  at_boundary (HTTPException 502 "BTCUSDT price missing") =
    HTTPException 502 "BTCUSDT price missing".
Proof.
  intros H. unfold _build_cross_rates. rewrite H. simpl. auto.
Qed.

Lemma missing_reference_price_witness :
  Dict.mem "BTCUSDT" [("BTCEUR", Dec.of_Z 90000); ("BTCGBP", Dec.of_Z 0)] = false /\
  _build_cross_rates [("BTCEUR", Dec.of_Z 90000); ("BTCGBP", Dec.of_Z 0)] =
    Raise (HTTPException 502 "BTCUSDT price missing").
Proof.
  split; [reflexivity|].
  apply (missing_reference_price
           [("BTCEUR", Dec.of_Z 90000); ("BTCGBP", Dec.of_Z 0)]).
  reflexivity.
Defined.





(** C2. Once the cache getter has returned a table, [convert] picks the rate
    in this order: the same currency on both sides gives the rate 1, whatever
    the table holds; otherwise a present direct key gives its entry as it is;
    otherwise a present reverse key gives 1 divided by its entry; otherwise
    the request fails with the 400 "Unsupported pair" naming the pair. *)
Theorem convert_resolution_order (CACHE_TTL : Z) (w w' : World) (cache : rates)
    (ccy_from ccy_to : Currency) (quantity : Decimal) :
  _get_rates_cached CACHE_TTL w = (Ok cache, w') ->
  let pair := pair_key ccy_from ccy_to in
  let reverse := pair_key ccy_to ccy_from in
  (ccy_from = ccy_to ->
   convert CACHE_TTL ccy_from ccy_to quantity w =
     (respond quantity ccy_to (Ok Dec.one), w')) /\
  (ccy_from <> ccy_to ->
   forall rate, Dict.get pair cache = Some rate ->
   convert CACHE_TTL ccy_from ccy_to quantity w =
     (respond quantity ccy_to (Ok rate), w')) /\
  (ccy_from <> ccy_to -> Dict.get pair cache = None ->
   forall rate, Dict.get reverse cache = Some rate ->
   convert CACHE_TTL ccy_from ccy_to quantity w =
     (respond quantity ccy_to (Dec.div Dec.one rate), w')) /\
  (ccy_from <> ccy_to -> Dict.get pair cache = None ->
   Dict.get reverse cache = None ->
   convert CACHE_TTL ccy_from ccy_to quantity w =
     (Raise (HTTPException 400 ("Unsupported pair " ++ pair)), w')).
Proof.
  intros Hget. cbv zeta. rewrite convert_unfold, Hget.
  unfold convert_rate, pair_key, Dict.mem, Dict.getitem.
  destruct (Currency_eqb_spec ccy_from ccy_to) as [Heq|Hne].
  - repeat split; intros; try contradiction; reflexivity.
  - split; [intros; contradiction|].
    split; [intros _ rate ->; reflexivity|].
    split; [intros _ -> rate ->; reflexivity|].
    intros _ -> ->. reflexivity.
Qed.

Lemma convert_resolution_order_witness :
  convert 300 GBP GBP (Dec.of_Z 100) world_partial =
    (Ok (mkConversion (mkDecimal false 10000 (-2)) GBP), world_partial) /\
  convert 300 USD EUR (Dec.of_Z 100) world_partial =
    (Ok (mkConversion (mkDecimal false 9000 (-2)) EUR), world_partial) /\
  convert 300 EUR USD (Dec.of_Z 100) world_partial =
    (Ok (mkConversion (mkDecimal false 11111 (-2)) USD), world_partial) /\
  convert 300 EUR GBP (Dec.of_Z 100) world_partial =
    (Raise (HTTPException 400 "Unsupported pair EURGBP"), world_partial).
Proof.
  assert (H : _get_rates_cached 300 world_partial = (Ok partial_table, world_partial))
    by reflexivity.
  split; [|split; [|split]].
  - apply (proj1 (convert_resolution_order 300 _ _ _ GBP GBP (Dec.of_Z 100) H)).
    reflexivity.
  - apply (proj1 (proj2 (convert_resolution_order 300 _ _ _ USD EUR (Dec.of_Z 100) H))
             ltac:(discriminate) (mkDecimal false 9 (-1))).
    reflexivity.
  - apply (proj1 (proj2 (proj2
             (convert_resolution_order 300 _ _ _ EUR USD (Dec.of_Z 100) H)))
             ltac:(discriminate) eq_refl (mkDecimal false 9 (-1))).
    reflexivity.
  - apply (proj2 (proj2 (proj2
             (convert_resolution_order 300 _ _ _ EUR GBP (Dec.of_Z 100) H)))
             ltac:(discriminate) eq_refl eq_refl).
Defined.

(** C10. [convert] runs the cache getter first, also when both currencies
    are the same: the world after the request is the world after the getter.
    So with a cache that is not fresh an identity conversion sends requests
    upstream (between one and three, in the order of the symbols), and when
    the getter raises, the conversion fails with that exception as it leaves
    the handlers of [convert]. *)
Theorem identity_needs_upstream (CACHE_TTL : Z) (w : World) (x : Currency)
    (quantity : Decimal) :
  ~ fresh w ->
  snd (convert CACHE_TTL x x quantity w) = snd (_get_rates_cached CACHE_TTL w) /\
  (exists n, (1 <= n <= 3)%nat /\
     requests (snd (convert CACHE_TTL x x quantity w)) =
       (requests w ++ firstn n symbols)%list) /\
  (forall e w', _get_rates_cached CACHE_TTL w = (Raise e, w') ->
     convert CACHE_TTL x x quantity w = (Raise (at_boundary e), w')).
Proof.
  intros Hstale. apply cache_valid_stale in Hstale.
  rewrite convert_unfold.
  assert (Hreq : exists n, (1 <= n <= 3)%nat /\
            requests (snd (_get_rates_cached CACHE_TTL w)) =
              (requests w ++ firstn n symbols)%list).
  { rewrite (getter_stale _ _ Hstale).
    destruct (_fetch_rates w) as [[prices|e] w1] eqn:Hfetch;
      apply fetch_rates_frame in Hfetch;
      destruct Hfetch as (_ & _ & _ & n & Hn & Hreq & _).
    - destruct (_build_cross_rates prices); simpl; now exists n.
    - simpl. now exists n. }
  destruct (_get_rates_cached CACHE_TTL w) as [[cache|e] w1]; simpl in *.
  - repeat split; auto. discriminate.
  - repeat split; auto. now intros e' w' [= <- <-].
Qed.

Lemma identity_needs_upstream_witness :
  convert 300 USD USD (Dec.of_Z 1) world_down =
    (Raise (HTTPException 502 "Binance error for BTCUSDT"),
     after_request world_down "BTCUSDT").
Proof.
  apply (proj2 (proj2 (identity_needs_upstream 300 world_down USD (Dec.of_Z 1)
                         (fun H => proj1 H eq_refl)))
           (HTTPException 502 "Binance error for BTCUSDT")).
  reflexivity.
Defined.

(** C9. A table the cache getter returns from a refresh holds all six
    directed pairs.  On such a table every request for two different
    currencies is served by the direct arm of [convert], a request for one
    currency by the identity arm; the reciprocal arm and the "Unsupported
    pair" arm are never taken. *)
Theorem refreshed_table_is_complete (CACHE_TTL : Z) (w w' : World) (table : rates) :
  ~ fresh w ->
  _get_rates_cached CACHE_TTL w = (Ok table, w') ->
  complete table /\
  (forall a b,
     convert_branch table a b = if Currency_eqb a b then Identity else Direct) /\
  (forall a b, a <> b ->
     convert_rate table a b = Dict.getitem (pair_key a b) table /\
     exists rate, Dict.get (pair_key a b) table = Some rate).
Proof.
  intros Hstale Hget. apply cache_valid_stale in Hstale.
  rewrite (getter_stale _ _ Hstale) in Hget.
  destruct (_fetch_rates w) as [[prices|e] w1] eqn:Hfetch; [|discriminate].
  destruct (_build_cross_rates prices) as [cross|e] eqn:Hbuild; [|discriminate].
  injection Hget as <- _.
  apply fetch_rates_shape in Hfetch. destruct Hfetch as (pu & pe & pg & ->).
  assert (Hc : complete (Dict.merge
            [("BTCUSDT", pu); ("BTCEUR", pe); ("BTCGBP", pg)] cross)).
  { revert Hbuild. unfold _build_cross_rates. simpl.
    destruct (Dec.div pu pe) as [eu|]; [|discriminate]. simpl.
    destruct (Dec.div pe pu) as [ue|]; [|discriminate]. simpl.
    destruct (Dec.div pu pg) as [gu|]; [|discriminate]. simpl.
    destruct (Dec.div pg pu) as [ug|]; [|discriminate]. simpl.
    destruct (Dec.div Dec.one (Dec.mul eu ug)) as [ge|]; [|discriminate]. simpl.
    intros [= <-] a b Hab. destruct a, b; try contradiction; reflexivity. }
  split; [exact Hc|]. split.
  - intros a b. unfold convert_branch.
    destruct (Currency_eqb_spec a b) as [Heq|Hne]; [reflexivity|].
    now rewrite (Hc a b Hne).
  - intros a b Hne. rewrite convert_rate_by_branch. unfold convert_branch.
    destruct (Currency_eqb_spec a b) as [Heq|_]; [contradiction|].
    specialize (Hc a b Hne). rewrite Hc. split; [reflexivity|].
    unfold Dict.mem in Hc. destruct (Dict.get (pair_key a b) _) as [r|];
      [now exists r | discriminate].
Qed.

Lemma refreshed_table_is_complete_witness :
  complete test_table /\
  convert_branch test_table EUR GBP = Direct /\
  convert_branch test_table GBP USD = Direct.
Proof.
  destruct (refreshed_table_is_complete 300 world_start world_warm test_table
              (fun H => proj1 H eq_refl) eq_refl) as (Hc & Hb & _).
  split; [exact Hc|]. split; [exact (Hb EUR GBP) | exact (Hb GBP USD)].
Defined.

(* ------------------------------------------------------------------------- *)
(** ** The claims on rounding *)








(* ------------------------------------------------------------------------- *)
(** ** The fetch: success and error attribution *)

Lemma fetch_step_good rates_ sym w price elapsed :
  upstream w (List.length (requests w)) sym
    = (Response 200 (Payload (PriceDecimal price)), elapsed) ->
  fetch_step rates_ sym w = (Ok (Dict.set sym price rates_), after_request w sym).
Proof.
  intros H. unfold fetch_step, client_get, after_request.
  unfold bind, ret, M_Monad, mbind, mret. rewrite H. reflexivity.
Qed.

Lemma after_request_length w sym :
  List.length (requests (after_request w sym)) = S (List.length (requests w)).
Proof. unfold after_request. cbn [requests]. rewrite length_app. simpl. lia. Qed.

Lemma fetch_rates_good (w : World) (p1 p2 p3 : Decimal) (d1 d2 d3 : Z) :
  let n := List.length (requests w) in
  upstream w n "BTCUSDT" = (Response 200 (Payload (PriceDecimal p1)), d1) ->
  upstream w (S n) "BTCEUR" = (Response 200 (Payload (PriceDecimal p2)), d2) ->
  upstream w (S (S n)) "BTCGBP" = (Response 200 (Payload (PriceDecimal p3)), d3) ->
  _fetch_rates w =
    (Ok [("BTCUSDT", p1); ("BTCEUR", p2); ("BTCGBP", p3)],
     mkWorld (_cache w) (_cache_expiry w) (clock w + d1 + d2 + d3)
             (upstream w) (requests w ++ symbols)%list).
Proof.
  intros n H1 H2 H3. subst n. unfold _fetch_rates, symbols. cbn [fetch_loop].
  unfold bind, ret, M_Monad, mbind, mret.
  rewrite (fetch_step_good [] "BTCUSDT" w p1 d1 H1).
  set (w1 := after_request w "BTCUSDT").
  assert (H2' : upstream w1 (List.length (requests w1)) "BTCEUR"
                = (Response 200 (Payload (PriceDecimal p2)), d2)).
  { unfold w1. rewrite after_request_length. exact H2. }
  rewrite (fetch_step_good _ "BTCEUR" w1 p2 d2 H2').
  set (w2 := after_request w1 "BTCEUR").
  assert (H3' : upstream w2 (List.length (requests w2)) "BTCGBP"
                = (Response 200 (Payload (PriceDecimal p3)), d3)).
  { unfold w2. rewrite after_request_length. unfold w1.
    rewrite after_request_length. exact H3. }
  rewrite (fetch_step_good _ "BTCGBP" w2 p3 d3 H3').
  f_equal. unfold after_request at 1. rewrite H3'. cbn [snd].
  unfold w2. unfold after_request at 1 2 3 4 5. rewrite H2'.
  cbn [snd _cache _cache_expiry clock upstream requests].
  unfold w1, after_request. rewrite H1.
  cbn [snd _cache _cache_expiry clock upstream requests].
  rewrite <- !app_assoc. reflexivity.
Qed.

(** X1. When the upstream answers the next three requests with status 200
    and a decimal price each, [_fetch_rates] succeeds; the result holds
    exactly BTCUSDT, BTCEUR, BTCGBP in this order, each with the price that
    was answered for it; exactly these three requests have been sent, and
    the cache, its expiry and the upstream are untouched. *)
Theorem fetch_rates_success (w : World) :
  answered_before w 3 ->
  exists prices w',
    _fetch_rates w = (Ok prices, w') /\
    Dict.keys prices = symbols /\
    (forall j sym price elapsed,
       nth_error symbols j = Some sym ->
       upstream w (List.length (requests w) + j) sym
         = (Response 200 (Payload (PriceDecimal price)), elapsed) ->
       Dict.get sym prices = Some price) /\
    requests w' = (requests w ++ symbols)%list /\
    _cache w' = _cache w /\ _cache_expiry w' = _cache_expiry w /\
    upstream w' = upstream w.
Proof.
  intros Hgood.
  destruct (Hgood 0%nat "BTCUSDT" ltac:(lia) eq_refl) as (p1 & d1 & H1).
  destruct (Hgood 1%nat "BTCEUR" ltac:(lia) eq_refl) as (p2 & d2 & H2).
  destruct (Hgood 2%nat "BTCGBP" ltac:(lia) eq_refl) as (p3 & d3 & H3).
  pose proof H1 as H1'. pose proof H2 as H2'. pose proof H3 as H3'.
  rewrite Nat.add_0_r in H1'.
  replace (List.length (requests w) + 1)%nat
    with (S (List.length (requests w))) in H2' by lia.
  replace (List.length (requests w) + 2)%nat
    with (S (S (List.length (requests w)))) in H3' by lia.
  do 2 eexists. split; [exact (fetch_rates_good w p1 p2 p3 d1 d2 d3 H1' H2' H3')|].
  cbn [_cache _cache_expiry upstream requests].
  split; [reflexivity|]. split; [|auto].
  intros j sym price elapsed Hsym Hans.
  destruct j as [|[|[|j]]]; cbn in Hsym; try (destruct j; discriminate Hsym);
    injection Hsym as <-; rewrite Hans in *.
  - now injection H1 as <- _.
  - now injection H2 as <- _.
  - now injection H3 as <- _.
Qed.

Lemma fetch_rates_success_witness :
  exists prices w',
    _fetch_rates world_start = (Ok prices, w') /\
    Dict.keys prices = symbols /\
    (forall j sym price elapsed,
       nth_error symbols j = Some sym ->
       upstream world_start (List.length (requests world_start) + j) sym
         = (Response 200 (Payload (PriceDecimal price)), elapsed) ->
       Dict.get sym prices = Some price) /\
    requests w' = (requests world_start ++ symbols)%list /\
    _cache w' = _cache world_start /\ _cache_expiry w' = _cache_expiry world_start /\
    upstream w' = upstream world_start.
Proof.
  apply (fetch_rates_success world_start).
  intros j sym Hj Hsym.
  destruct j as [|[|[|j]]]; [| | |lia]; injection Hsym as <-.
  - exists (Dec.of_Z 100000), 5. reflexivity.
  - exists (Dec.of_Z 90000), 5. reflexivity.
  - exists (Dec.of_Z 80000), 5. reflexivity.
Defined.

Lemma fetch_step_status rates_ sym w status_code body elapsed :
  upstream w (List.length (requests w)) sym = (Response status_code body, elapsed) ->
  status_code <> 200 ->
  fetch_step rates_ sym w =
    (Raise (HTTPException 502 ("Binance error for " ++ sym)), after_request w sym).
Proof.
  intros H Hsc. unfold fetch_step, client_get, after_request.
  unfold bind, ret, M_Monad, mbind, mret, raise. rewrite H.
  apply Z.eqb_neq in Hsc. rewrite Hsc. reflexivity.
Qed.

Lemma fetch_step_no_price rates_ sym w elapsed :
  upstream w (List.length (requests w)) sym
    = (Response 200 (Payload PriceAbsent), elapsed) ->
  fetch_step rates_ sym w =
    (Raise (HTTPException 502 ("Malformed Binance response for " ++ sym)),
     after_request w sym).
Proof.
  intros H. unfold fetch_step, client_get, after_request.
  unfold bind, ret, M_Monad, mbind, mret, raise. rewrite H. reflexivity.
Qed.

Lemma fetch_rates_first_failure (w : World) (i : nat) (sym : string) (e : exn) :
  nth_error symbols i = Some sym ->
  answered_before w i ->
  (forall rates_ w',
     List.length (requests w') = (List.length (requests w) + i)%nat ->
     upstream w' = upstream w ->
     fetch_step rates_ sym w' = (Raise e, after_request w' sym)) ->
  fst (_fetch_rates w) = Raise e /\
  requests (snd (_fetch_rates w)) = (requests w ++ firstn (S i) symbols)%list.
Proof.
  intros Hsym Hgood Hfail. unfold _fetch_rates.
  destruct i as [|[|[|i]]]; cbn in Hsym; try (destruct i; discriminate Hsym);
    injection Hsym as <-; unfold symbols; cbn [fetch_loop];
    unfold bind, ret, M_Monad, mbind, mret.
  - rewrite (Hfail [] w) by (auto; lia). split; reflexivity.
  - destruct (Hgood 0%nat "BTCUSDT" ltac:(lia) eq_refl) as (p0 & d0 & H0).
    rewrite Nat.add_0_r in H0. rewrite (fetch_step_good _ _ _ _ _ H0).
    rewrite Hfail; [| rewrite after_request_length; lia | reflexivity].
    split; [reflexivity|]. cbn. rewrite <- app_assoc. reflexivity.
  - destruct (Hgood 0%nat "BTCUSDT" ltac:(lia) eq_refl) as (p0 & d0 & H0).
    rewrite Nat.add_0_r in H0. rewrite (fetch_step_good _ _ _ _ _ H0).
    destruct (Hgood 1%nat "BTCEUR" ltac:(lia) eq_refl) as (p1 & d1 & H1).
    assert (H1' : upstream (after_request w "BTCUSDT")
                    (List.length (requests (after_request w "BTCUSDT"))) "BTCEUR"
                  = (Response 200 (Payload (PriceDecimal p1)), d1)).
    { rewrite after_request_length. replace (S (List.length (requests w)))
        with (List.length (requests w) + 1)%nat by lia. exact H1. }
    rewrite (fetch_step_good _ _ _ _ _ H1').
    rewrite Hfail; [| rewrite !after_request_length; lia | reflexivity].
    split; [reflexivity|]. cbn. rewrite <- !app_assoc. reflexivity.
Qed.

(** X2. Error attribution of the fetch, non-success status.  When the
    symbols before the [i]-th are answered with a price and the [i]-th gets
    a status other than 200 (whatever its body), [_fetch_rates] raises the
    502 "Binance error for" that symbol, and the requests it has sent are
    the first [i+1] symbols: none is sent after the failure. *)
Theorem fetch_rates_status_error (w : World) (i : nat) (sym : string)
    (status_code : Z) (body : json_body) (elapsed : Z) :
  nth_error symbols i = Some sym ->
  answered_before w i ->
  upstream w (List.length (requests w) + i) sym
    = (Response status_code body, elapsed) ->
  status_code <> 200 ->
  fst (_fetch_rates w) = Raise (HTTPException 502 ("Binance error for " ++ sym)) /\
  requests (snd (_fetch_rates w)) = (requests w ++ firstn (S i) symbols)%list.
Proof.
  intros Hsym Hgood Hans Hsc.
  apply (fetch_rates_first_failure w i sym); auto.
  intros rates_ w' Hlen Hup.
  apply (fetch_step_status _ _ _ status_code body elapsed); [|exact Hsc].
  now rewrite Hup, Hlen.
Qed.

Lemma fetch_rates_status_error_witness :
  fst (_fetch_rates (mkWorld [] None 0 flaky_upstream [])) =
    Raise (HTTPException 502 "Binance error for BTCGBP") /\
  requests (snd (_fetch_rates (mkWorld [] None 0 flaky_upstream []))) = symbols.
Proof.
  apply (fetch_rates_status_error (mkWorld [] None 0 flaky_upstream []) 2 "BTCGBP"
           503 (Undecodable "Service Unavailable") 5).
  - reflexivity.
  - intros j sym Hj Hsym. destruct j as [|[|j]]; [| |lia];
      injection Hsym as <-; eexists; eexists; reflexivity.
  - reflexivity.
  - discriminate.
Defined.

(** X3. Error attribution of the fetch, missing price.  When the symbols
    before the [i]-th are answered with a price and the [i]-th answer has
    status 200 but no price field, [_fetch_rates] raises the 502 "Malformed
    Binance response for" that symbol and sends no further request. *)
Theorem fetch_rates_missing_price (w : World) (i : nat) (sym : string)
    (elapsed : Z) :
  nth_error symbols i = Some sym ->
  answered_before w i ->
  upstream w (List.length (requests w) + i) sym
    = (Response 200 (Payload PriceAbsent), elapsed) ->
  fst (_fetch_rates w) =
    Raise (HTTPException 502 ("Malformed Binance response for " ++ sym)) /\
  requests (snd (_fetch_rates w)) = (requests w ++ firstn (S i) symbols)%list.
Proof.
  intros Hsym Hgood Hans.
  apply (fetch_rates_first_failure w i sym); auto.
  intros rates_ w' Hlen Hup.
  apply (fetch_step_no_price _ _ _ elapsed). now rewrite Hup, Hlen.
Qed.

Lemma fetch_rates_missing_price_witness :
  fst (_fetch_rates (mkWorld [] None 0 sloppy_upstream [])) =
    Raise (HTTPException 502 "Malformed Binance response for BTCEUR") /\
  requests (snd (_fetch_rates (mkWorld [] None 0 sloppy_upstream []))) =
    ["BTCUSDT"; "BTCEUR"].
Proof.
  apply (fetch_rates_missing_price (mkWorld [] None 0 sloppy_upstream []) 1 "BTCEUR" 5).
  - reflexivity.
  - intros j sym Hj Hsym. destruct j as [|j]; [|lia].
    injection Hsym as <-. eexists; eexists; reflexivity.
  - reflexivity.
Defined.

(* ------------------------------------------------------------------------- *)
(** ** Cross rates: missing and zero prices, other symbols *)







Lemma get_filter_key {V} (P : string -> bool) k (d : Dict.dict V) :
  P k = true -> Dict.get k (filter (fun kv => P (fst kv)) d) = Dict.get k d.
Proof.
  intros Hk. induction d as [|[k' v] d IH]; [reflexivity|].
  cbn [filter fst]. destruct (P k') eqn:Hk'; cbn [Dict.get].
  - now rewrite IH.
  - destruct (String.eqb_spec k k') as [->|_]; [congruence | exact IH].
Qed.

Lemma cross_loop_filter btc_usd items : forall acc,
  cross_loop btc_usd (filter (fun kv => startswith (fst kv) "BTC") items) acc
  = cross_loop btc_usd items acc.
Proof.
  induction items as [|[symbol price] rest IH]; intros acc; [reflexivity|].
  cbn [filter fst]. destruct (startswith symbol "BTC") eqn:Hs.
  - cbn [cross_loop]. unfold bind, result_Monad, rbind.
    destruct (cross_step btc_usd acc (symbol, price)); [apply IH | reflexivity].
  - cbn [cross_loop]. unfold bind, result_Monad, rbind.
    unfold cross_step at 1. rewrite Hs. cbn [negb]. rewrite orb_true_r. apply IH.
Qed.

(** X6. [_build_cross_rates] looks at the symbols that start with BTC and
    at nothing else: dropping every other entry of the mapping changes
    neither the table it returns nor the exception it raises. *)
Theorem build_cross_rates_ignores_other_symbols (prices : rates) :
  _build_cross_rates (filter (fun kv => startswith (fst kv) "BTC") prices)
  = _build_cross_rates prices.
Proof.
  unfold _build_cross_rates, Dict.mem, Dict.getitem.
  rewrite (get_filter_key (fun k => startswith k "BTC") "BTCUSDT" prices eq_refl).
  destruct (Dict.get "BTCUSDT" prices) as [btc_usd|]; [|reflexivity].
  cbn [negb]. unfold bind, result_Monad, rbind.
  now rewrite cross_loop_filter.
Qed.

(* ------------------------------------------------------------------------- *)
(** ** Cross rates: accuracy of the stored rates *)

Lemma mul_spec a b :
  0 < d_int a -> 0 < d_int b ->
  (Qabs (mag (Dec.mul a b) - mag a * mag b) <= eps * (mag a * mag b))%Q.
Proof.
  intros Ha Hb. unfold Dec.mul.
  assert (Hc : 0 < d_int a * d_int b) by (apply Z.mul_pos_pos; assumption).
  destruct (DecFacts.fix_spec (xorb (d_sign a) (d_sign b)) (d_int a * d_int b)
              (d_exp a + d_exp b) Hc) as (cr & K & Hfix & HK & Hcr & Herr & _).
  rewrite Hfix, !DecFacts.mag_eq. cbn [d_int d_exp].
  apply (DecFacts.scaled_error (cr * 10 ^ K - d_int a * d_int b)
           (d_int a * d_int b) (pow10 (d_exp a + d_exp b))).
  - apply DecFacts.pow10Q_pos.
  - unfold Z.sub.
    rewrite inject_Z_plus, inject_Z_opp, !inject_Z_mult, !DecFacts.pow10Q_add,
      <- DecFacts.pow10Q_Z by lia.
    ring.
  - rewrite inject_Z_mult, DecFacts.pow10Q_add. ring.
  - assert (HP : 10 ^ prec = 5 * (2 * 10 ^ (prec - 1))) by (vm_compute; reflexivity).
    rewrite HP. clear HP.
    set (X := Z.abs (cr * 10 ^ K - d_int a * d_int b)) in *.
    set (c := d_int a * d_int b) in *. clearbody X c.
    set (P27 := 10 ^ (prec - 1)) in *. clearbody P27. lia.
Qed.

Section Chains.
#[local] Open Scope Q_scope.

Lemma chain3 (A B eu ug m e u g : Q) :
  0 < A -> A <= B ->
  0 < e -> 0 < u -> 0 < g -> 0 < eu -> 0 < ug ->
  A * u <= eu * e -> eu * e <= B * u ->
  A * g <= ug * u -> ug * u <= B * g ->
  A * (eu * ug) <= m -> m <= B * (eu * ug) ->
  A * A * A * g <= m * e /\ m * e <= B * B * B * g.
Proof.
  intros HA HAB He Hu Hg Heu Hug X1 X2 Y1 Y2 M1 M2.
  assert (HB : 0 < B) by lra.
  set (X := eu * e) in *. set (Y := ug * u) in *.
  assert (HXY : eu * ug * (e * u) == X * Y) by (unfold X, Y; ring).
  assert (HX0 : 0 <= X) by nra. assert (HY0 : 0 <= Y) by nra.
  assert (Hup : X * Y <= (B * u) * (B * g)).
  { apply Qmult_le_compat_nonneg; split; assumption. }
  assert (Hlo : (A * u) * (A * g) <= X * Y).
  { apply Qmult_le_compat_nonneg; split; try assumption; nra. }
  assert (Heu0 : 0 < e * u) by nra.
  assert (Hm1 : A * (eu * ug) * (e * u) <= m * (e * u)).
  { apply Qmult_le_compat_r; [assumption | lra]. }
  assert (Hm2 : m * (e * u) <= B * (eu * ug) * (e * u)).
  { apply Qmult_le_compat_r; [assumption | lra]. }
  assert (Hup2 : B * (X * Y) <= B * ((B * u) * (B * g))).
  { rewrite !(Qmult_comm B). apply Qmult_le_compat_r; lra. }
  assert (Hlo2 : A * ((A * u) * (A * g)) <= A * (X * Y)).
  { rewrite !(Qmult_comm A). apply Qmult_le_compat_r; lra. }
  split.
  - apply (Qmult_le_r _ _ u Hu).
    assert (E1 : A * A * A * g * u == A * ((A * u) * (A * g))) by ring.
    assert (E2 : m * e * u == m * (e * u)) by ring.
    assert (E3 : A * (eu * ug) * (e * u) == A * (X * Y)) by (rewrite <- HXY; ring).
    rewrite E1, E2. lra.
  - apply (Qmult_le_r _ _ u Hu).
    assert (E1 : B * B * B * g * u == B * ((B * u) * (B * g))) by ring.
    assert (E2 : m * e * u == m * (e * u)) by ring.
    assert (E3 : B * (eu * ug) * (e * u) == B * (X * Y)) by (rewrite <- HXY; ring).
    rewrite E1, E2. lra.
Qed.

(* the reciprocal: h*m ~ 1, m*e in [lo*g, hi*g]  ==>  h*g ~ e *)
Lemma chain_inv (A B lo hi T h m e g : Q) :
  0 < A -> 0 < lo -> 0 < e -> 0 < g -> 0 < h -> 0 < m ->
  A <= h * m -> h * m <= B ->
  lo * g <= m * e -> m * e <= hi * g ->
  B <= (1 + T) * lo -> (1 - T) * hi <= A ->
  (1 - T) * e <= h * g /\ h * g <= (1 + T) * e.
Proof.
  intros HA Hlo He Hg Hh Hm P1 P2 Q1 Q2 N1 N2.
  assert (Hhi : 0 < hi) by nra.
  (* h*(m*e) = (h*m)*e *)
  assert (E : h * (m * e) == (h * m) * e) by ring.
  assert (U1 : h * (lo * g) <= h * (m * e)).
  { rewrite !(Qmult_comm h). apply Qmult_le_compat_r; lra. }
  assert (U2 : h * (m * e) <= h * (hi * g)).
  { rewrite !(Qmult_comm h). apply Qmult_le_compat_r; lra. }
  assert (V1 : A * e <= (h * m) * e) by (apply Qmult_le_compat_r; lra).
  assert (V2 : (h * m) * e <= B * e) by (apply Qmult_le_compat_r; lra).
  assert (W1 : B * e <= (1 + T) * lo * e) by (apply Qmult_le_compat_r; lra).
  assert (W2 : (1 - T) * hi * e <= A * e) by (apply Qmult_le_compat_r; lra).
  split.
  - apply (Qmult_le_r _ _ hi Hhi).
    assert (E1 : h * g * hi == h * (hi * g)) by ring.
    assert (E2 : (1 - T) * e * hi == (1 - T) * hi * e) by ring.
    rewrite E1, E2. lra.
  - apply (Qmult_le_r _ _ lo Hlo).
    assert (E1 : h * g * lo == h * (lo * g)) by ring.
    assert (E2 : (1 + T) * e * lo == (1 + T) * lo * e) by ring.
    rewrite E1, E2. lra.
Qed.

Lemma relative_bounds (x t : Q) :
  Qabs (x - t) <= eps * t -> (1 - eps) * t <= x /\ x <= (1 + eps) * t.
Proof.
  intros H. apply Qabs_diff_Qle_condition in H. destruct H as [H1 H2].
  set (et := eps * t) in *.
  assert (E1 : (1 - eps) * t == t - et) by (unfold et; ring).
  assert (E2 : (1 + eps) * t == t + et) by (unfold et; ring).
  rewrite E1, E2. split; lra.
Qed.

Lemma within_tolerance (x t : Q) :
  (1 - rate_tolerance) * t <= x -> x <= (1 + rate_tolerance) * t ->
  Qabs (x - t) <= rate_tolerance * t.
Proof.
  intros H1 H2. apply Qabs_diff_Qle_condition.
  set (et := rate_tolerance * t) in *.
  assert (E1 : (1 - rate_tolerance) * t == t - et) by (unfold et; ring).
  assert (E2 : (1 + rate_tolerance) * t == t + et) by (unfold et; ring).
  rewrite E1 in H1. rewrite E2 in H2. split; lra.
Qed.

Lemma widen (x t : Q) :
  0 < t -> (1 - eps) * t <= x -> x <= (1 + eps) * t ->
  (1 - rate_tolerance) * t <= x /\ x <= (1 + rate_tolerance) * t.
Proof.
  intros Ht H1 H2.
  assert (L : (1 - rate_tolerance) * t <= (1 - eps) * t).
  { apply Qmult_le_compat_r; [vm_compute; discriminate | lra]. }
  assert (U : (1 + eps) * t <= (1 + rate_tolerance) * t).
  { apply Qmult_le_compat_r; [vm_compute; discriminate | lra]. }
  split; lra.
Qed.

End Chains.

Lemma direct_rate_accuracy a b r :
  positive a -> positive b -> Dec.div a b = Ok r ->
  positive r /\
  (Qabs (toQ r * toQ b - toQ a) <= rate_tolerance * toQ a)%Q.
Proof.
  intros Pa Pb Hdiv.
  destruct (DecFacts.div_positive _ _ Pa Pb) as (r' & Hr' & Pr).
  rewrite Hdiv in Hr'. injection Hr' as <-. split; [exact Pr|].
  destruct (DecFacts.div_spec a b (proj2 Pa) (proj2 Pb)) as (r' & Hr' & _ & _ & E).
  rewrite Hdiv in Hr'. injection Hr' as <-.
  destruct (DecFacts.toQ_positive _ Pa) as [-> Ha0].
  destruct (DecFacts.toQ_positive _ Pb) as [-> _].
  destruct (DecFacts.toQ_positive _ Pr) as [-> _].
  apply relative_bounds in E. destruct E as [E1 E2].
  pose proof (DecFacts.mag_pos a (proj2 Pa)) as Ha.
  destruct (widen _ _ Ha E1 E2) as [W1 W2].
  now apply within_tolerance.
Qed.

Lemma composed_rates_accuracy u e g eu ug h :
  positive u -> positive e -> positive g ->
  Dec.div u e = Ok eu -> Dec.div g u = Ok ug ->
  Dec.div Dec.one (Dec.mul eu ug) = Ok h ->
  (Qabs (toQ (Dec.mul eu ug) * toQ e - toQ g) <= rate_tolerance * toQ g)%Q /\
  (Qabs (toQ h * toQ g - toQ e) <= rate_tolerance * toQ e)%Q.
Proof.
  intros Pu Pe Pg H1 H2 H3.
  destruct (DecFacts.div_positive _ _ Pu Pe) as (x & Hx & Peu).
  rewrite H1 in Hx. injection Hx as <-.
  destruct (DecFacts.div_positive _ _ Pg Pu) as (x & Hx & Pug).
  rewrite H2 in Hx. injection Hx as <-.
  pose proof (DecFacts.mul_positive _ _ Peu Pug) as Pm.
  destruct (DecFacts.div_positive _ _ one_positive Pm) as (x & Hx & Ph).
  rewrite H3 in Hx. injection Hx as <-.
  destruct (DecFacts.div_spec u e (proj2 Pu) (proj2 Pe)) as (x & Hx & _ & _ & E1).
  rewrite H1 in Hx. injection Hx as <-.
  destruct (DecFacts.div_spec g u (proj2 Pg) (proj2 Pu)) as (x & Hx & _ & _ & E2).
  rewrite H2 in Hx. injection Hx as <-.
  destruct (DecFacts.div_spec Dec.one _ (proj2 one_positive) (proj2 Pm))
    as (x & Hx & _ & _ & E3).
  rewrite H3 in Hx. injection Hx as <-.
  pose proof (mul_spec eu ug (proj2 Peu) (proj2 Pug)) as E4.
  destruct (DecFacts.toQ_positive _ Pe) as [-> _].
  destruct (DecFacts.toQ_positive _ Pg) as [-> _].
  destruct (DecFacts.toQ_positive _ Pm) as [-> _].
  destruct (DecFacts.toQ_positive _ Ph) as [-> _].
  pose proof (DecFacts.mag_pos _ (proj2 Pu)) as Hu0.
  pose proof (DecFacts.mag_pos _ (proj2 Pe)) as He0.
  pose proof (DecFacts.mag_pos _ (proj2 Pg)) as Hg0.
  pose proof (DecFacts.mag_pos _ (proj2 Peu)) as Heu0.
  pose proof (DecFacts.mag_pos _ (proj2 Pug)) as Hug0.
  pose proof (DecFacts.mag_pos _ (proj2 Pm)) as Hm0.
  pose proof (DecFacts.mag_pos _ (proj2 Ph)) as Hh0.
  apply relative_bounds in E1, E2, E4.
  assert (Hone : (mag Dec.one == 1)%Q) by reflexivity.
  rewrite Hone in E3. apply relative_bounds in E3.
  rewrite !Qmult_1_r in E3.
  destruct E1 as [E1a E1b]. destruct E2 as [E2a E2b].
  destruct E3 as [E3a E3b]. destruct E4 as [E4a E4b].
  assert (HA : (0 < 1 - eps)%Q) by (vm_compute; reflexivity).
  assert (HAB : (1 - eps <= 1 + eps)%Q) by (vm_compute; discriminate).
  destruct (chain3 (1 - eps) (1 + eps) (mag eu) (mag ug) (mag (Dec.mul eu ug))
              (mag e) (mag u) (mag g) HA HAB He0 Hu0 Hg0 Heu0 Hug0
              E1a E1b E2a E2b E4a E4b) as [C1 C2].
  set (lo := ((1 - eps) * (1 - eps) * (1 - eps))%Q) in *.
  set (hi := ((1 + eps) * (1 + eps) * (1 + eps))%Q) in *.
  split.
  - apply within_tolerance.
    + eapply Qle_trans; [|exact C1].
      apply Qmult_le_compat_r; [vm_compute; discriminate | lra].
    + eapply Qle_trans; [exact C2|].
      apply Qmult_le_compat_r; [vm_compute; discriminate | lra].
  - assert (Hlo : (0 < lo)%Q) by (vm_compute; reflexivity).
    assert (N1 : (1 + eps <= (1 + rate_tolerance) * lo)%Q)
      by (vm_compute; discriminate).
    assert (N2 : ((1 - rate_tolerance) * hi <= 1 - eps)%Q)
      by (vm_compute; discriminate).
    destruct (chain_inv (1 - eps) (1 + eps) lo hi rate_tolerance (mag h)
                (mag (Dec.mul eu ug)) (mag e) (mag g) HA Hlo He0 Hg0 Hh0 Hm0
                E3a E3b C1 C2 N1 N2) as [I1 I2].
    now apply within_tolerance.
Qed.

(** X7. Accuracy of the derived rates.  On well-formed prices holding the
    three symbols, the table has, for every two different currencies A and
    B, a strictly positive rate A->B, and that rate times the price in A is
    the price in B up to a relative error of 3e-27: each stored rate,
    composed ones included, is the exact quotient P[B] / P[A] to 26 digits. *)
Theorem derived_rates_accuracy (prices : rates) (btc_usd btc_eur btc_gbp : Decimal) :
  BridgePrice prices ->
  Dict.get "BTCUSDT" prices = Some btc_usd ->
  Dict.get "BTCEUR" prices = Some btc_eur ->
  Dict.get "BTCGBP" prices = Some btc_gbp ->
  exists table,
    _build_cross_rates prices = Ok table /\
    forall a b, a <> b ->
      exists rate,
        Dict.get (pair_key a b) table = Some rate /\ positive rate /\
        (Qabs (toQ rate * toQ (quote btc_usd btc_eur btc_gbp a)
               - toQ (quote btc_usd btc_eur btc_gbp b))
         <= rate_tolerance * toQ (quote btc_usd btc_eur btc_gbp b))%Q.
Proof.
  intros HB Hu He Hg.
  destruct (build_cross_rates_run prices btc_usd btc_eur btc_gbp HB Hu He Hg)
    as (loop_rates & eurusd & usdgbp & gbpeur & Hloop & Hd1 & P1 & Hd2 & P2
        & Hd3 & P4 & Hrun).
  eexists. split; [exact Hrun|].
  destruct HB as [Hnd Hpos].
  assert (Pu : positive btc_usd) by (eapply Hpos, DictFacts.get_In, Hu).
  assert (Pe : positive btc_eur) by (eapply Hpos, DictFacts.get_In, He).
  assert (Pg : positive btc_gbp) by (eapply Hpos, DictFacts.get_In, Hg).
  pose proof (cross_loop_entries btc_usd EUR ltac:(discriminate) _ _ _ Hnd Hloop) as HE.
  pose proof (cross_loop_entries btc_usd GBP ltac:(discriminate) _ _ _ Hnd Hloop) as HG.
  change (bridge_symbol EUR) with "BTCEUR" in HE. rewrite He in HE.
  change (bridge_symbol GBP) with "BTCGBP" in HG. rewrite Hg in HG.
  destruct HE as [HE1 HE2]. destruct HG as [HG1 HG2].
  unfold pair_key in HE1, HE2, HG1, HG2. simpl in HE1, HE2, HG1, HG2.
  unfold Dict.getitem in HE1, HE2, HG1, HG2.
  destruct (DecFacts.div_positive _ _ Pe Pu) as (usdeur & Hd4 & _).
  destruct (DecFacts.div_positive _ _ Pu Pg) as (gbpusd & Hd5 & _).
  rewrite Hd1 in HE1. rewrite Hd4 in HE2. rewrite Hd5 in HG1. rewrite Hd2 in HG2.
  destruct (Dict.get "EURUSD" loop_rates) as [v1|] eqn:G1; [|discriminate].
  destruct (Dict.get "USDEUR" loop_rates) as [v2|] eqn:G2; [|discriminate].
  destruct (Dict.get "GBPUSD" loop_rates) as [v3|] eqn:G3; [|discriminate].
  destruct (Dict.get "USDGBP" loop_rates) as [v4|] eqn:G4; [|discriminate].
  injection HE1 as ->. injection HE2 as ->. injection HG1 as ->. injection HG2 as ->.
  destruct (composed_rates_accuracy _ _ _ _ _ _ Pu Pe Pg Hd1 Hd2 Hd3) as [Cm Ch].
  intros a b Hab. unfold pair_key. rewrite !DictFacts.get_set.
  destruct a, b; try contradiction; simpl.
  - (* USD -> EUR *)
    rewrite G2. exists usdeur. split; [reflexivity|].
    apply (direct_rate_accuracy btc_eur btc_usd); assumption.
  - (* USD -> GBP *)
    rewrite G4. exists usdgbp. split; [reflexivity|].
    apply (direct_rate_accuracy btc_gbp btc_usd); assumption.
  - (* EUR -> USD *)
    rewrite G1. exists eurusd. split; [reflexivity|].
    apply (direct_rate_accuracy btc_usd btc_eur); assumption.
  - (* EUR -> GBP *)
    exists (Dec.mul eurusd usdgbp). split; [reflexivity|].
    split; [now apply DecFacts.mul_positive | exact Cm].
  - (* GBP -> USD *)
    rewrite G3. exists gbpusd. split; [reflexivity|].
    apply (direct_rate_accuracy btc_usd btc_gbp); assumption.
  - (* GBP -> EUR *)
    exists gbpeur. split; [reflexivity|]. split; [exact P4 | exact Ch].
Qed.

Lemma derived_rates_accuracy_witness :
  (Qabs (toQ (mkDecimal false 1125000000000000000000000000 (-27)) * toQ (Dec.of_Z 80000)
         - toQ (Dec.of_Z 90000)) <= rate_tolerance * toQ (Dec.of_Z 90000))%Q.
Proof.
  destruct (derived_rates_accuracy test_prices (Dec.of_Z 100000) (Dec.of_Z 90000)
              (Dec.of_Z 80000) test_prices_BridgePrice eq_refl eq_refl eq_refl)
    as (table & Hrun & Hall).
  destruct (Hall GBP EUR ltac:(discriminate)) as (rate & Hget & _ & Hq).
  assert (Ht : table = test_cross_rates).
  { assert (H : _build_cross_rates test_prices = Ok test_cross_rates) by reflexivity.
    rewrite H in Hrun. now injection Hrun. }
  subst table. injection Hget as <-. exact Hq.
Defined.

(* ------------------------------------------------------------------------- *)
(** ** Rounding to cents *)

Lemma round_number_ok x r :
  wf x -> round_number x = Ok r ->
  r = mkDecimal (d_sign x) (half_up_cents (mag x)) (-2) /\
  half_up_cents (mag x) < 10 ^ prec.
Proof.
  intros Hx H. rewrite (DecFacts.round_number_spec x Hx) in H.
  destruct (Z.ltb_spec (half_up_cents (mag x)) (10 ^ prec)); [|discriminate].
  injection H as <-. auto.
Qed.

Lemma mag_cents s c : (mag (mkDecimal s c (-2)) * 100 == inject_Z c)%Q.
Proof.
  unfold mag. cbn [d_int d_exp].
  assert (H : ((10 # 1) ^ (-2) * 100 == 1)%Q) by reflexivity.
  rewrite <- Qmult_assoc, H. ring.
Qed.

Lemma mag_nonneg x : wf x -> (0 <= mag x)%Q.
Proof.
  intros Hx. unfold mag. apply Qmult_le_0_compat.
  - replace 0%Q with (inject_Z 0) by reflexivity. now rewrite <- Zle_Qle.
  - apply Qlt_le_weak, (DecFacts.pow10Q_pos (d_exp x)).
Qed.

Lemma cents_error (x : Decimal) (s : bool) :
  (Qabs (mag (mkDecimal s (half_up_cents (mag x)) (-2)) - mag x) <= 1 # 200)%Q.
Proof.
  pose proof (mag_cents s (half_up_cents (mag x))) as Hc.
  unfold half_up_cents in *.
  pose proof (Qfloor_le (100 * mag x + (1 # 2))) as Hlo.
  pose proof (Qlt_floor (100 * mag x + (1 # 2))) as Hhi.
  rewrite inject_Z_plus in Hhi. change (inject_Z 1) with 1%Q in Hhi.
  set (c := inject_Z (Qfloor (100 * mag x + (1 # 2)))) in *.
  set (m := mag {| d_sign := s;
                   d_int := Qfloor (100 * mag x + (1 # 2)); d_exp := -2 |}) in *.
  apply Qabs_diff_Qle_condition. split; lra.
Qed.

(** X8. [round_number] returns the nearest amount in cents: on a decimal
    with a natural coefficient, a result has exponent -2, the sign of the
    argument, and a magnitude within half a cent of the argument's. *)
Theorem round_number_nearest_cent (x r : Decimal) :
  wf x -> round_number x = Ok r ->
  d_exp r = -2 /\ d_sign r = d_sign x /\
  (Qabs (mag r - mag x) <= 1 # 200)%Q.
Proof.
  intros Hx H. destruct (round_number_ok x r Hx H) as [-> _].
  cbn [d_exp d_sign]. split; [reflexivity|]. split; [reflexivity|].
  apply cents_error.
Qed.

Lemma round_number_nearest_cent_witness :
  (Qabs (mag (mkDecimal false 8889 (-2))
         - mag (mkDecimal false 8888888888888888888888888888 (-26))) <= 1 # 200)%Q.
Proof.
  apply (round_number_nearest_cent
           (mkDecimal false 8888888888888888888888888888 (-26))
           (mkDecimal false 8889 (-2)));
    [unfold wf; simpl; lia | reflexivity].
Defined.

(** X9. Rounding is idempotent: an amount [round_number] has returned is
    returned unchanged when rounded again. *)
Theorem round_number_idempotent (x r : Decimal) :
  wf x -> round_number x = Ok r -> round_number r = Ok r.
Proof.
  intros Hx H. destruct (round_number_ok x r Hx H) as [-> Hfit].
  set (c := half_up_cents (mag x)) in *.
  assert (Hc : 0 <= c).
  { unfold c, half_up_cents. rewrite <- (Qfloor_Z 0). apply Qfloor_resp_le.
    pose proof (mag_nonneg x Hx). change (inject_Z 0) with 0%Q. lra. }
  rewrite DecFacts.round_number_spec by exact Hc.
  rewrite DecFacts.half_up_cents_mag by exact Hc. cbn [d_int d_exp d_sign].
  change (-2 <=? -2) with true. cbn iota. change (-2 + 2) with 0.
  rewrite Z.pow_0_r, Z.mul_1_r.
  apply Z.ltb_lt in Hfit. now rewrite Hfit.
Qed.

Lemma round_number_idempotent_witness :
  round_number (mkDecimal false 8889 (-2)) = Ok (mkDecimal false 8889 (-2)).
Proof.
  apply (round_number_idempotent
           (mkDecimal false 8888888888888888888888888888 (-26)));
    [unfold wf; simpl; lia | reflexivity].
Defined.

Lemma Qfloor_lt_iff (x : Q) (n : Z) : Qfloor x < n <-> (x < inject_Z n)%Q.
Proof.
  split; intros H.
  - eapply Qlt_le_trans; [apply Qlt_floor|]. rewrite <- Zle_Qle. lia.
  - rewrite Zlt_Qlt. eapply Qle_lt_trans; [apply Qfloor_le | exact H].
Qed.

(** X10. The range of [round_number]: a decimal with a natural coefficient
    is rounded exactly when its magnitude is below 10^26 - 0.005, the point
    from which the amount in cents needs a 29th digit; from there on the
    call raises [decimal.InvalidOperation]. *)
Theorem round_number_range (x : Decimal) :
  wf x ->
  ((mag x < inject_Z (10 ^ 26) - (1 # 200))%Q ->
     round_number x = Ok (mkDecimal (d_sign x) (half_up_cents (mag x)) (-2))) /\
  ((inject_Z (10 ^ 26) - (1 # 200) <= mag x)%Q ->
     round_number x = Raise (DecimalException InvalidOperation)).
Proof.
  intros Hx. rewrite (DecFacts.round_number_spec x Hx).
  assert (Hiff : half_up_cents (mag x) < 10 ^ prec <->
                 (mag x < inject_Z (10 ^ 26) - (1 # 200))%Q).
  { unfold half_up_cents. rewrite Qfloor_lt_iff.
    assert (E : (inject_Z (10 ^ prec) == 100 * inject_Z (10 ^ 26))%Q)
      by (vm_compute; reflexivity).
    rewrite E. set (t := inject_Z (10 ^ 26)). split; intros; lra. }
  split; intros H.
  - apply Hiff, Z.ltb_lt in H. now rewrite H.
  - destruct (Z.ltb_spec (half_up_cents (mag x)) (10 ^ prec)) as [Hlt|]; [|reflexivity].
    apply Hiff in Hlt. lra.
Qed.

Lemma round_number_range_witness :
  round_number (mkDecimal false 9999999999999999999999999999 (-2))
    = Ok (mkDecimal false 9999999999999999999999999999 (-2)) /\
  round_number (mkDecimal false 99999999999999999999999999995 (-3))
    = Raise (DecimalException InvalidOperation).
Proof.
  split.
  - apply (proj1 (round_number_range
            (mkDecimal false 9999999999999999999999999999 (-2))
            ltac:(unfold wf; simpl; lia))).
    vm_compute. reflexivity.
  - apply (proj2 (round_number_range
            (mkDecimal false 99999999999999999999999999995 (-3))
            ltac:(unfold wf; simpl; lia))).
    vm_compute. discriminate.
Defined.

(** X11. [round_number] is monotone on amounts that are not negative: when
    x <= y and y is rounded, x is rounded too, to an amount that is not
    larger. *)
Theorem round_number_monotone (x y ry : Decimal) :
  wf x -> wf y -> d_sign x = false -> d_sign y = false ->
  (toQ x <= toQ y)%Q -> round_number y = Ok ry ->
  exists rx, round_number x = Ok rx /\ (toQ rx <= toQ ry)%Q.
Proof.
  intros Hx Hy Sx Sy Hle H.
  destruct (round_number_ok y ry Hy H) as [-> Hfit].
  unfold toQ in Hle. rewrite Sx, Sy in Hle.
  assert (Hc : half_up_cents (mag x) <= half_up_cents (mag y)).
  { unfold half_up_cents. apply Qfloor_resp_le. lra. }
  exists (mkDecimal (d_sign x) (half_up_cents (mag x)) (-2)). split.
  - rewrite (DecFacts.round_number_spec x Hx).
    destruct (Z.ltb_spec (half_up_cents (mag x)) (10 ^ prec)); [reflexivity | lia].
  - unfold toQ. cbn [d_sign]. rewrite Sx, Sy.
    pose proof (mag_cents false (half_up_cents (mag x))) as Cx.
    pose proof (mag_cents false (half_up_cents (mag y))) as Cy.
    rewrite Zle_Qle in Hc. lra.
Qed.

Lemma round_number_monotone_witness :
  exists rx, round_number (mkDecimal false 12344 (-3)) = Ok rx /\
             (toQ rx <= toQ (mkDecimal false 1235 (-2)))%Q.
Proof.
  apply (round_number_monotone (mkDecimal false 12344 (-3))
           (mkDecimal false 12345 (-3)) (mkDecimal false 1235 (-2)));
    try reflexivity; try (unfold wf; simpl; lia).
  vm_compute. discriminate.
Defined.

(* ------------------------------------------------------------------------- *)
(** ** The exceptions that leave [convert] *)

(** *** Which exceptions each stage can raise *)

Lemma div_raises a b e :
  Dec.div a b = Raise e -> exists c, e = DecimalException c.
Proof.
  unfold Dec.div. destruct (is_zero b).
  - destruct (is_zero a); intros [= <-]; eauto.
  - destruct (is_zero a); [discriminate|].
    destruct (if 0 <=? _ then _ else _) as [coeff remainder].
    destruct (if remainder =? 0 then _ else _) as [coeff' exp']. discriminate.
Qed.

Lemma round_number_raises x e :
  round_number x = Raise e -> e = DecimalException InvalidOperation.
Proof.
  unfold round_number, Dec.quantize. destruct (is_zero x); [discriminate|].
  destruct (prec <? _); [now intros [= <-]|].
  destruct (prec <? _); [now intros [= <-] | discriminate].
Qed.

Lemma cross_loop_raises btc_usd items : forall acc e,
  cross_loop btc_usd items acc = Raise e -> exists c, e = DecimalException c.
Proof.
  induction items as [|[symbol price] rest IH]; intros acc e; cbn [cross_loop].
  - discriminate.
  - unfold bind, result_Monad, rbind.
    destruct (cross_step btc_usd acc (symbol, price)) as [acc1|e1] eqn:Hstep.
    + apply IH.
    + intros [= <-]. revert Hstep. unfold cross_step.
      destruct (_ || _); [discriminate|].
      unfold bind, result_Monad, rbind.
      destruct (Dec.div btc_usd price) as [r1|e1'] eqn:D1.
      * destruct (Dec.div price btc_usd) as [r2|e2'] eqn:D2; [discriminate|].
        intros [= <-]. eapply div_raises, D2.
      * intros [= <-]. eapply div_raises, D1.
Qed.

Lemma build_raises prices e :
  _build_cross_rates prices = Raise e ->
  e = HTTPException 502 "BTCUSDT price missing" \/ internal e.
Proof.
  unfold _build_cross_rates. destruct (negb _); [intros [= <-]; now left|].
  intros H. right. revert H. unfold bind, result_Monad, rbind, Dict.getitem.
  destruct (Dict.get "BTCUSDT" prices) as [btc_usd|]; [|intros [= <-]; exact I].
  destruct (cross_loop btc_usd prices []) as [loop_rates|e1] eqn:Hloop.
  - destruct (Dict.get "EURUSD" loop_rates); [|intros [= <-]; exact I].
    destruct (Dict.get "USDGBP" loop_rates); [|intros [= <-]; exact I].
    destruct (Dict.get "EURGBP" _); [|intros [= <-]; exact I].
    destruct (Dec.div Dec.one d1) as [r|e1] eqn:D; [discriminate|].
    intros [= <-]. destruct (div_raises _ _ _ D) as [c ->]. exact I.
  - intros [= <-]. destruct (cross_loop_raises _ _ _ _ Hloop) as [c ->]. exact I.
Qed.

Lemma fetch_step_raises rates_ sym w e w' :
  fetch_step rates_ sym w = (Raise e, w') ->
  (exists detail, e = HTTPException 502 detail) \/ internal e.
Proof.
  unfold fetch_step, client_get. unfold bind, ret, M_Monad, mbind, mret, raise.
  destruct (upstream w (List.length (requests w)) sym) as [[msg|sc body] dt].
  - intros [= <- _]. right. exact I.
  - destruct (negb (sc =? 200)); [intros [= <- _]; left; eauto|].
    destruct body as [msg|[|d|]]; intros [= <- _];
      [right; exact I | left; eauto | right; exact I].
Qed.

Lemma fetch_loop_raises syms : forall rates_ w e w',
  fetch_loop syms rates_ w = (Raise e, w') ->
  (exists detail, e = HTTPException 502 detail) \/ internal e.
Proof.
  induction syms as [|sym rest IH]; intros rates_ w e w'; cbn [fetch_loop].
  - discriminate.
  - unfold bind, ret, M_Monad, mbind, mret.
    destruct (fetch_step rates_ sym w) as [[r|e1] w1] eqn:Hstep.
    + apply IH.
    + intros [= <- <-]. eapply fetch_step_raises, Hstep.
Qed.

Lemma getter_raises CACHE_TTL w e w' :
  _get_rates_cached CACHE_TTL w = (Raise e, w') ->
  (exists detail, e = HTTPException 502 detail) \/ internal e.
Proof.
  intros H. destruct (cache_valid w) eqn:Hv.
  - rewrite (getter_valid _ _ Hv) in H. discriminate.
  - rewrite (getter_stale _ _ Hv) in H.
    destruct (_fetch_rates w) as [[prices|e1] w1] eqn:Hfetch.
    + destruct (_build_cross_rates prices) as [cross|e2] eqn:Hbuild; [discriminate|].
      injection H as <- _. destruct (build_raises _ _ Hbuild) as [->|Hi]; eauto.
    + injection H as <- _. eapply fetch_loop_raises, Hfetch.
Qed.

Lemma at_boundary_internal e :
  internal e ->
  at_boundary e = HTTPException 500 ("Unexpected error: " ++ exn_str e).
Proof. destruct e; simpl; [contradiction | auto | auto | auto]. Qed.

Lemma convert_rate_raises cache ccy_from ccy_to e :
  convert_rate cache ccy_from ccy_to = Raise e ->
  (e = HTTPException 400 ("Unsupported pair " ++ pair_key ccy_from ccy_to) /\
   ccy_from <> ccy_to /\
   Dict.mem (pair_key ccy_from ccy_to) cache = false /\
   Dict.mem (pair_key ccy_to ccy_from) cache = false) \/
  internal e.
Proof.
  unfold convert_rate. fold (pair_key ccy_from ccy_to) (pair_key ccy_to ccy_from).
  destruct (Currency_eqb_spec ccy_from ccy_to) as [|Hne]; [discriminate|].
  destruct (Dict.mem (pair_key ccy_from ccy_to) cache) eqn:M1.
  - unfold Dict.getitem. destruct (Dict.get _ cache); [discriminate|].
    intros [= <-]. right. exact I.
  - destruct (Dict.mem (pair_key ccy_to ccy_from) cache) eqn:M2.
    + unfold bind, result_Monad, rbind, Dict.getitem.
      destruct (Dict.get _ cache) as [r|]; [|intros [= <-]; right; exact I].
      intros D. destruct (div_raises _ _ _ D) as [c ->]. right. exact I.
    + intros [= <-]. left. auto.
Qed.

(** X12. [convert] never lets a raw exception out: whatever it raises is an
    [HTTPException] with status 400, 500 or 502.  The 400 is the
    "Unsupported pair" naming the pair, for two different currencies whose
    keys are both absent from the table; a 502 is one the cache getter
    raised, passed on unchanged. *)
Theorem convert_failures (CACHE_TTL : Z) (ccy_from ccy_to : Currency)
    (q : Decimal) (w w' : World) (e : exn) :
  convert CACHE_TTL ccy_from ccy_to q w = (Raise e, w') ->
  (e = HTTPException 400 ("Unsupported pair " ++ pair_key ccy_from ccy_to) /\
   ccy_from <> ccy_to /\
   exists cache,
     _get_rates_cached CACHE_TTL w = (Ok cache, w') /\
     Dict.mem (pair_key ccy_from ccy_to) cache = false /\
     Dict.mem (pair_key ccy_to ccy_from) cache = false) \/
  (exists detail, e = HTTPException 500 detail) \/
  (exists detail, e = HTTPException 502 detail /\
                  _get_rates_cached CACHE_TTL w = (Raise e, w')).
Proof.
  rewrite convert_unfold.
  destruct (_get_rates_cached CACHE_TTL w) as [[cache|e0] w1] eqn:Hget.
  - unfold respond, bind, result_Monad, rbind.
    destruct (convert_rate cache ccy_from ccy_to) as [rate|e1] eqn:Hrate.
    + destruct (round_number (Dec.mul q rate)) as [c|e2] eqn:Hround; [discriminate|].
      intros [= <- _]. apply round_number_raises in Hround. subst e2.
      right. left. simpl. eauto.
    + intros [= <- <-].
      destruct (convert_rate_raises _ _ _ _ Hrate) as [(-> & Hne & M1 & M2)|Hi].
      * left. simpl. split; [reflexivity|]. split; [exact Hne|]. exists cache. auto.
      * right. left. rewrite (at_boundary_internal _ Hi). eauto.
  - intros [= <- <-].
    destruct (getter_raises _ _ _ _ Hget) as [[detail ->]|Hi].
    + right. right. exists detail. simpl. auto.
    + right. left. rewrite (at_boundary_internal _ Hi). eauto.
Qed.

Lemma convert_failures_witness :
  (HTTPException 400 "Unsupported pair EURGBP"
     = HTTPException 400 ("Unsupported pair " ++ pair_key EUR GBP) /\
   EUR <> GBP /\
   exists cache,
     _get_rates_cached 300 world_partial = (Ok cache, world_partial) /\
     Dict.mem (pair_key EUR GBP) cache = false /\
     Dict.mem (pair_key GBP EUR) cache = false) \/
  (exists detail, HTTPException 400 "Unsupported pair EURGBP" = HTTPException 500 detail) \/
  (exists detail, HTTPException 400 "Unsupported pair EURGBP" = HTTPException 502 detail /\
     _get_rates_cached 300 world_partial
       = (Raise (HTTPException 400 "Unsupported pair EURGBP"), world_partial)).
Proof.
  apply (convert_failures 300 EUR GBP (Dec.of_Z 100) world_partial world_partial).
  reflexivity.
Defined.

(* ------------------------------------------------------------------------- *)
(** ** Effects of a conversion, and the serving window of the cache *)

(** X13. A conversion has no effect of its own: the world after [convert]
    is the world after the cache getter, for every request.  With a fresh
    cache that is the world before: not one request is sent, and the answer
    is computed from the stored table. *)
Theorem convert_effect (CACHE_TTL : Z) (ccy_from ccy_to : Currency)
    (q : Decimal) (w : World) :
  snd (convert CACHE_TTL ccy_from ccy_to q w) = snd (_get_rates_cached CACHE_TTL w) /\
  (fresh w ->
   convert CACHE_TTL ccy_from ccy_to q w =
     (respond q ccy_to (convert_rate (_cache w) ccy_from ccy_to), w)).
Proof.
  rewrite convert_unfold. split.
  - now destruct (_get_rates_cached CACHE_TTL w) as [[cache|e] w1].
  - intros Hf. apply cache_valid_fresh in Hf. now rewrite (getter_valid _ _ Hf).
Qed.

Lemma convert_effect_witness :
  convert 300 USD GBP (Dec.of_Z 100) world_warm =
    (Ok (mkConversion (mkDecimal false 8000 (-2)) GBP), world_warm).
Proof.
  apply (proj2 (convert_effect 300 USD GBP (Dec.of_Z 100) world_warm)).
  split; [discriminate|]. exists 300000015. split; [reflexivity | reflexivity].
Defined.

Lemma set_truthy {V} k (v : V) d : Dict.truthy (Dict.set k v d) = true.
Proof. destruct d as [|[k' v'] d]; simpl; [reflexivity|]. now destruct (String.eqb k k'). Qed.

Lemma merge_truthy {V} (b a : Dict.dict V) :
  Dict.truthy a = true -> Dict.truthy (Dict.merge a b) = true.
Proof.
  unfold Dict.merge. revert a. induction b as [|[k v] b IH]; intros a Ha; simpl.
  - exact Ha.
  - apply IH, set_truthy.
Qed.

Lemma refresh_outcome CACHE_TTL w table w1 :
  ~ fresh w -> _get_rates_cached CACHE_TTL w = (Ok table, w1) ->
  Dict.truthy table = true /\ _cache w1 = table /\
  _cache_expiry w1 = Some (clock w1 + CACHE_TTL * 1000000).
Proof.
  intros Hs H. apply cache_valid_stale in Hs. rewrite (getter_stale _ _ Hs) in H.
  destruct (_fetch_rates w) as [[prices|e] wf] eqn:Hfetch; [|discriminate].
  destruct (_build_cross_rates prices) as [cross|e]; [|discriminate].
  injection H as <- <-.
  apply fetch_rates_shape in Hfetch. destruct Hfetch as (p1 & p2 & p3 & ->).
  split; [now apply merge_truthy|]. split; reflexivity.
Qed.

(** X14. The serving window of the cache.  After a refresh that returned a
    table, a call of the getter at any clock reading strictly before the
    clock of the refresh plus the time-to-live returns that same table and
    leaves the world as it is (no request); at any reading from that sum on
    the cache is not fresh, so the call refreshes.  With a time-to-live of
    zero or less the table is therefore never served again. *)
Theorem cache_serving_window (CACHE_TTL : Z) (w w1 : World) (table : rates) (t : Z) :
  ~ fresh w ->
  _get_rates_cached CACHE_TTL w = (Ok table, w1) ->
  (t < clock w1 + CACHE_TTL * 1000000 ->
   _get_rates_cached CACHE_TTL (at_time w1 t) = (Ok table, at_time w1 t)) /\
  (clock w1 + CACHE_TTL * 1000000 <= t -> ~ fresh (at_time w1 t)).
Proof.
  intros Hs H. destruct (refresh_outcome _ _ _ _ Hs H) as (Ht & Hc & He).
  split.
  - intros Hlt.
    assert (Hv : cache_valid (at_time w1 t) = true).
    { unfold cache_valid, at_time. cbn [_cache _cache_expiry clock].
      rewrite Hc, He, Ht. now apply Z.ltb_lt. }
    rewrite (getter_valid _ _ Hv). unfold at_time at 1. cbn [_cache]. now rewrite Hc.
  - intros Hge [_ (expiry & Hexp & Hlt)].
    unfold at_time in Hexp, Hlt. cbn [_cache_expiry clock] in Hexp, Hlt.
    rewrite He in Hexp. injection Hexp as <-. lia.
Qed.

Lemma cache_serving_window_witness :
  _get_rates_cached 300 (at_time world_warm 300000014)
    = (Ok test_table, at_time world_warm 300000014) /\
  ~ fresh (at_time (snd (_get_rates_cached 0 world_start)) 15).
Proof.
  split.
  - apply (proj1 (cache_serving_window 300 world_start world_warm test_table
                    300000014 (fun H => proj1 H eq_refl) eq_refl)).
    reflexivity.
  - apply (proj2 (cache_serving_window 0 world_start
                    (snd (_get_rates_cached 0 world_start)) test_table 15
                    (fun H => proj1 H eq_refl) eq_refl)).
    vm_compute. discriminate.
Defined.

(* ------------------------------------------------------------------------- *)
(** ** Runs of the process *)

(** *** The shape of the cache along a run *)

Lemma refreshed_table_keys p1 p2 p3 cross :
  _build_cross_rates [("BTCUSDT", p1); ("BTCEUR", p2); ("BTCGBP", p3)] = Ok cross ->
  Dict.keys (Dict.merge [("BTCUSDT", p1); ("BTCEUR", p2); ("BTCGBP", p3)] cross)
  = (symbols ++ pair_keys)%list.
Proof.
  unfold _build_cross_rates. simpl.
  destruct (Dec.div p1 p2) as [eu|]; [|discriminate]. simpl.
  destruct (Dec.div p2 p1) as [ue|]; [|discriminate]. simpl.
  destruct (Dec.div p1 p3) as [gu|]; [|discriminate]. simpl.
  destruct (Dec.div p3 p1) as [ug|]; [|discriminate]. simpl.
  destruct (Dec.div Dec.one (Dec.mul eu ug)) as [ge|]; [|discriminate]. simpl.
  now intros [= <-].
Qed.

Lemma getter_keeps_shape CACHE_TTL w :
  cache_shape w ->
  cache_shape (snd (_get_rates_cached CACHE_TTL w)) /\
  forall table w', _get_rates_cached CACHE_TTL w = (Ok table, w') ->
    Dict.keys table = (symbols ++ pair_keys)%list.
Proof.
  intros Hshape. destruct (cache_valid w) eqn:Hv.
  - rewrite (getter_valid _ _ Hv). split; [exact Hshape|].
    intros table w' [= <- _].
    destruct Hshape as [[Hc _]|[Hk _]]; [|exact Hk].
    unfold cache_valid in Hv. rewrite Hc in Hv. discriminate.
  - rewrite (getter_stale _ _ Hv).
    destruct (_fetch_rates w) as [[prices|e] w1] eqn:Hfetch.
    + pose proof (fetch_rates_frame _ _ _ Hfetch) as (Hc & He & _).
      apply fetch_rates_shape in Hfetch. destruct Hfetch as (p1 & p2 & p3 & ->).
      destruct (_build_cross_rates _) as [cross|e] eqn:Hbuild.
      * pose proof (refreshed_table_keys _ _ _ _ Hbuild) as Hk.
        split.
        -- right. cbn [snd refreshed _cache _cache_expiry]. split; [exact Hk|eauto].
        -- now intros table w' [= <- _].
      * split; [|discriminate]. cbn [snd]. unfold cache_shape. now rewrite Hc, He.
    + pose proof (fetch_rates_frame _ _ _ Hfetch) as (Hc & He & _).
      split; [|discriminate]. cbn [snd]. unfold cache_shape. now rewrite Hc, He.
Qed.

Lemma reachable_shape CACHE_TTL w : reachable CACHE_TTL w -> cache_shape w.
Proof.
  induction 1 as [t up|w Hr IH|w t Hr IH].
  - left. split; reflexivity.
  - now apply getter_keeps_shape.
  - exact IH.
Qed.

Lemma keys_complete (table : rates) :
  Dict.keys table = (symbols ++ pair_keys)%list -> complete table.
Proof.
  intros Hk a b Hab. apply DictFacts.mem_In. rewrite Hk.
  destruct a, b; try contradiction; simpl; tauto.
Qed.




(** X20. In a run the fallback arms of [convert] are never taken: whenever
    the getter returns a table, a request for two different currencies is
    served by the direct arm, with the rate stored under the pair's own
    key; no reciprocal is computed at request time. *)
Theorem direct_rate_always_used (CACHE_TTL : Z) (ccy_from ccy_to : Currency)
    (q : Decimal) (w w' : World) (table : rates) :
  reachable CACHE_TTL w ->
  _get_rates_cached CACHE_TTL w = (Ok table, w') ->
  ccy_from <> ccy_to ->
  convert_branch table ccy_from ccy_to = Direct /\
  exists rate,
    Dict.get (pair_key ccy_from ccy_to) table = Some rate /\
    convert CACHE_TTL ccy_from ccy_to q w = (respond q ccy_to (Ok rate), w').
Proof.
  intros Hr Hget Hne. apply reachable_shape in Hr.
  pose proof (proj2 (getter_keeps_shape CACHE_TTL w Hr) _ _ Hget) as Hk.
  pose proof (keys_complete _ Hk _ _ Hne) as Hm.
  assert (Hb : convert_branch table ccy_from ccy_to = Direct).
  { unfold convert_branch. rewrite Hm.
    now destruct (Currency_eqb_spec ccy_from ccy_to). }
  split; [exact Hb|].
  destruct (mem_get_Some _ _ Hm) as [rate Hrate]. exists rate.
  split; [exact Hrate|].
  rewrite convert_unfold, Hget, convert_rate_by_branch, Hb.
  unfold Dict.getitem. now rewrite Hrate.
Qed.

Lemma direct_rate_always_used_witness :
  convert_branch test_table GBP EUR = Direct /\
  exists rate,
    Dict.get (pair_key GBP EUR) test_table = Some rate /\
    convert 300 GBP EUR (Dec.of_Z 75) world_warm
      = (respond (Dec.of_Z 75) EUR (Ok rate), world_warm).
Proof.
  apply (direct_rate_always_used 300 GBP EUR (Dec.of_Z 75) world_warm world_warm
           test_table).
  - exact (reach_get 300 world_start (reach_start 300 0 test_upstream)).
  - reflexivity.
  - discriminate.
Defined.

(* ------------------------------------------------------------------------- *)
(** ** The endpoint [/rates], and the amount of a conversion *)

(** *** The endpoint [/rates] *)

Lemma rates_unfold CACHE_TTL w :
  Api.rates CACHE_TTL w =
  match _get_rates_cached CACHE_TTL w with
  | (Ok cache, w') =>
      (Ok (mkRatesResponse
             (filter (fun kv => startswith (fst kv) "BTC") cache)
             (filter (fun kv => negb (startswith (fst kv) "BTC")) cache)), w')
  | (Raise e, w') => (Raise e, w')
  end.
Proof.
  unfold Api.rates. monad_unfold.
  now destruct (_get_rates_cached CACHE_TTL w) as [[cache|e] w'].
Qed.

Lemma table_entries (table : rates) :
  Dict.keys table = (symbols ++ pair_keys)%list ->
  exists v1 v2 v3 v4 v5 v6 v7 v8 v9,
    table = [("BTCUSDT", v1); ("BTCEUR", v2); ("BTCGBP", v3);
             ("EURUSD", v4); ("USDEUR", v5); ("GBPUSD", v6); ("USDGBP", v7);
             ("EURGBP", v8); ("GBPEUR", v9)].
Proof.
  unfold Dict.keys. intros H.
  repeat (destruct table as [|[? ?] table]; [discriminate H|];
          cbn [map fst] in H; injection H as <- H).
  destruct table; [|discriminate H].
  repeat eexists.
Qed.

(** X16. In every world of a run, an answer of [/rates] splits the table
    the cache getter returned in two, without losing or reordering an
    entry: the three Binance prices, then the six derived rates.  The
    endpoint fails exactly when the getter fails, with the getter's own
    exception, and leaves the world the getter leaves. *)
Theorem rates_endpoint_partition (CACHE_TTL : Z) (w : World) :
  reachable CACHE_TTL w ->
  snd (Api.rates CACHE_TTL w) = snd (_get_rates_cached CACHE_TTL w) /\
  (forall e, fst (Api.rates CACHE_TTL w) = Raise e <->
             fst (_get_rates_cached CACHE_TTL w) = Raise e) /\
  (forall resp, fst (Api.rates CACHE_TTL w) = Ok resp ->
     fst (_get_rates_cached CACHE_TTL w)
       = Ok (binance_prices resp ++ derived_cross_rates resp)%list /\
     Dict.keys (binance_prices resp) = symbols /\
     Dict.keys (derived_cross_rates resp) = pair_keys).
Proof.
  intros Hr. apply reachable_shape in Hr.
  pose proof (proj2 (getter_keeps_shape CACHE_TTL w Hr)) as Hk.
  rewrite rates_unfold.
  destruct (_get_rates_cached CACHE_TTL w) as [[cache|e0] w'].
  - cbn [fst snd]. split; [reflexivity|]. split; [intros e; split; discriminate|].
    intros resp [= <-]. cbn [binance_prices derived_cross_rates].
    destruct (table_entries cache (Hk _ _ eq_refl))
      as (v1 & v2 & v3 & v4 & v5 & v6 & v7 & v8 & v9 & ->).
    repeat split.
  - cbn [fst snd]. split; [reflexivity|]. split; [intros e; split; intros [= <-]; reflexivity | discriminate].
Qed.

Lemma world_warm_reachable : reachable 300 world_warm.
Proof. exact (reach_get 300 world_start (reach_start 300 0 test_upstream)). Qed.

Lemma rates_endpoint_partition_witness :
  fst (_get_rates_cached 300 world_warm)
    = Ok (test_prices ++ test_cross_rates)%list /\
  Dict.keys test_prices = symbols /\
  Dict.keys test_cross_rates = pair_keys.
Proof.
  exact (proj2 (proj2 (rates_endpoint_partition 300 world_warm world_warm_reachable))
           (mkRatesResponse test_prices test_cross_rates) eq_refl).
Defined.

(** *** The amount of a conversion *)



(* ------------------------------------------------------------------------- *)
(** ** A refresh, end to end *)

(** *** A refresh from three good answers *)



(** *** A transport failure, end to end *)

Lemma fetch_step_transport rates_ sym w message elapsed :
  upstream w (List.length (requests w)) sym = (TransportError message, elapsed) ->
  fetch_step rates_ sym w = (Raise (OtherException message), after_request w sym).
Proof.
  intros H. unfold fetch_step, client_get, after_request.
  unfold bind, ret, M_Monad, mbind, mret, raise. rewrite H. reflexivity.
Qed.

(** X19. A request that cannot be sent or answered (a timeout, a refused
    connection) is not reported as a 502: when the cache is not fresh and
    the first failing request of the refresh fails in transport, [convert]
    answers 500 with the transport's message, for every pair and quantity,
    the identity pairs included, and the cache and its expiry stay as they
    were. *)
Theorem convert_transport_error (CACHE_TTL : Z) (ccy_from ccy_to : Currency)
    (q : Decimal) (w : World) (i : nat) (sym message : string) (elapsed : Z) :
  ~ fresh w ->
  nth_error symbols i = Some sym ->
  answered_before w i ->
  upstream w (List.length (requests w) + i) sym = (TransportError message, elapsed) ->
  fst (convert CACHE_TTL ccy_from ccy_to q w)
    = Raise (HTTPException 500 ("Unexpected error: " ++ message)) /\
  _cache (snd (convert CACHE_TTL ccy_from ccy_to q w)) = _cache w /\
  _cache_expiry (snd (convert CACHE_TTL ccy_from ccy_to q w)) = _cache_expiry w.
Proof.
  intros Hstale Hsym Hgood Hfail.
  apply cache_valid_stale in Hstale.
  rewrite convert_unfold, (getter_stale _ _ Hstale).
  destruct (fetch_rates_first_failure w i sym (OtherException message) Hsym Hgood)
    as [He _].
  { intros rates_ w' Hlen Hup. apply (fetch_step_transport _ _ _ _ elapsed).
    now rewrite Hup, Hlen. }
  destruct (_fetch_rates w) as [[prices|e] w1] eqn:Hfetch; [discriminate He|].
  cbn [fst] in He. injection He as ->.
  pose proof (fetch_rates_frame _ _ _ Hfetch) as (Hc & Hx & _).
  cbn [fst snd at_boundary exn_str]. auto.
Qed.

Lemma convert_transport_error_witness :
  fst (convert 300 USD USD (Dec.of_Z 1) (mkWorld [] None 0 timeout_upstream []))
    = Raise (HTTPException 500 "Unexpected error: timed out") /\
  _cache (snd (convert 300 USD USD (Dec.of_Z 1) (mkWorld [] None 0 timeout_upstream [])))
    = [] /\
  _cache_expiry
    (snd (convert 300 USD USD (Dec.of_Z 1) (mkWorld [] None 0 timeout_upstream [])))
    = None.
Proof.
  apply (convert_transport_error 300 USD USD (Dec.of_Z 1)
           (mkWorld [] None 0 timeout_upstream []) 1 "BTCEUR" "timed out" 10000000).
  - intros [H _]. now apply H.
  - reflexivity.
  - intros j sym Hj Hsym. destruct j as [|j]; [|lia].
    injection Hsym as <-. exists (Dec.of_Z 100000), 5. reflexivity.
  - reflexivity.
Defined.
